(** * vim-image-resize: the two image-resize plugins of [main.ts]

    [main.ts] holds two Obsidian plugins:
    - [MouseWheelZoomPlugin]: while a configured modifier key is held, a wheel
      event over an image rewrites the size annotation of that image in the
      note that shows it;
    - [ImageResizePlugin]: Ctrl+Shift+K / Ctrl+Shift+J grow or shrink the
      [|N]] annotation on the editor line under the cursor.

    The development is a shallow embedding.  JavaScript strings are Rocq
    [string]s (one [ascii] per code unit, for texts of code units below
    256), JavaScript numbers are the type [number]: a double whose value is
    an integer, an infinity or [NaN], with sums and differences rounded to
    the nearest double (every number the plugins compute with is of this
    kind: a parsed run of digits, a slider value, a pixel width).
    Exceptions and rejected promises are the left summand of [result];
    the vault and the log of the calls made to it are threaded through the
    monad [IO]. *)

From Stdlib Require Import ZArith String Ascii DecimalString DecimalPos Bool Lia.
From stdpp Require Import gmap strings list.

Local Open Scope string_scope.
Local Open Scope Z_scope.

(** stdpp blocks the unfolding of [+:+]; the proofs below compute with it. *)
#[local] Arguments String.append !s1 s2 : simpl nomatch.
#[local] Arguments String.prefix : simpl never.

(* ================================================================== *)
(** * The JavaScript built-ins the plugins call *)
(* ================================================================== *)

Module JS.

(** ** Numbers

    A JavaScript number is an IEEE 754 double.  The numbers the plugins
    compute with are parsed runs of digits, slider values, pixel widths
    and their sums and differences: doubles whose value is an integer,
    the two infinities and [NaN].  [Num z] is the double of value [z];
    the arithmetic rounds every result to the nearest double, ties to the
    even significand, as the hardware does. *)

Inductive number : Type :=
| Num (z : Z)
| NaN
| Infinity
| NegInfinity.

(** The double nearest to the integer [a >= 0]; [None] when it is beyond
    the largest double.  Below [2^53] every integer is a double; from
    there on a double keeps the 53 leading bits. *)
Definition round_nonneg (a : Z) : option Z :=
  if a <? 2 ^ 53 then Some a
  else
    let e := Z.log2 a - 52 in
    let q := a / 2 ^ e in
    let r := a mod 2 ^ e in
    let half := 2 ^ (e - 1) in
    let q' := if (half <? r) || ((r =? half) && Z.odd q) then q + 1 else q in
    let m := q' * 2 ^ e in
    if 2 ^ 1024 <=? m then None else Some m.

Definition double_of_Z (z : Z) : number :=
  match round_nonneg (Z.abs z) with
  | Some m => Num (Z.sgn z * m)
  | None => if 0 <? z then Infinity else NegInfinity
  end.

Definition neg (a : number) : number :=
  match a with
  | Num x => Num (- x)
  | NaN => NaN
  | Infinity => NegInfinity
  | NegInfinity => Infinity
  end.

Definition add (a b : number) : number :=
  match a, b with
  | Num x, Num y => double_of_Z (x + y)
  | NaN, _ | _, NaN => NaN
  | Infinity, NegInfinity | NegInfinity, Infinity => NaN
  | Infinity, _ | _, Infinity => Infinity
  | NegInfinity, _ | _, NegInfinity => NegInfinity
  end.

Definition sub (a b : number) : number := add a (neg b).

(** [a < b]; any comparison with [NaN] is false. *)
Definition lt (a b : number) : bool :=
  match a, b with
  | Num x, Num y => x <? y
  | NaN, _ | _, NaN => false
  | _, NegInfinity => false
  | Infinity, _ => false
  | NegInfinity, _ => true
  | _, Infinity => true
  end.

(** [a > b] is [b < a]. *)
Definition gt (a b : number) : bool := lt b a.

(** [Math.min(a, b)]: [NaN] as soon as one argument is. *)
Definition Math_min (a b : number) : number :=
  match a, b with
  | Num x, Num y => Num (Z.min x y)
  | NaN, _ | _, NaN => NaN
  | NegInfinity, _ | _, NegInfinity => NegInfinity
  | Infinity, other | other, Infinity => other
  end.

(** A number that is zero or more, and one that is more than zero. *)
Definition nonneg (a : number) : Prop :=
  match a with
  | Num x => 0 <= x
  | Infinity => True
  | _ => False
  end.

Definition above_zero (a : number) : Prop :=
  match a with
  | Num x => 0 < x
  | Infinity => True
  | _ => False
  end.

(** *** Number::toString

    The digits printed for a double are the shortest that still read back
    as that double: among the integers with [k] significant digits the one
    closest to the double is taken, for the least [k] that has one.  The
    result is printed in full below [10^21] and with an exponent from
    there on. *)

(** The decimal digits of an integer that is not negative. *)
Definition decimal (a : Z) : string := NilZero.string_of_int (Z.to_int a).

(** Whether the integer [y] reads as the double [a]. *)
Definition reads_as (a y : Z) : bool :=
  (0 <? y) &&
  match double_of_Z y with
  | Num m => m =? a
  | _ => false
  end.

(** The search over the number of significant digits: [p] is the power of
    ten of the last digit kept, [steps] the number of lengths left to try. *)
Fixpoint shortest_go (steps : nat) (a p : Z) : Z :=
  match steps with
  | O => a
  | S steps' =>
      let lo := (a / p) * p in
      let hi := lo + p in
      match reads_as a lo, reads_as a hi with
      | true, true =>
          if a - lo <? hi - a then lo
          else if hi - a <? a - lo then hi
          else if Z.even (a / p) then lo else hi
      | true, false => lo
      | false, true => hi
      | false, false => shortest_go steps' a (p / 10)
      end
  end.

Definition shortest (a : Z) : Z :=
  let d := String.length (decimal a) in
  shortest_go d a (10 ^ (Z.of_nat d - 1)).

Fixpoint strip_zeros (s : string) : string :=
  match s with
  | EmptyString => EmptyString
  | String c s' =>
      match strip_zeros s' with
      | EmptyString => if Ascii.eqb c "0" then EmptyString else String c EmptyString
      | t => String c t
      end
  end.

(** The text of a double of value [a > 0]. *)
Definition toString_positive (a : Z) : string :=
  let y := shortest a in
  let digits := decimal y in
  if y <? 10 ^ 21 then digits
  else
    let n := Z.of_nat (String.length digits) in
    match strip_zeros digits with
    | String c EmptyString => String c ("e+" +:+ decimal (n - 1))
    | String c rest => String c ("." +:+ rest +:+ "e+" +:+ decimal (n - 1))
    | EmptyString => digits
    end.

(** [String(n)], also what a template literal [`${n}`] inserts. *)
Definition toString (n : number) : string :=
  match n with
  | Num z =>
      if z =? 0 then "0"
      else if z <? 0 then "-" +:+ toString_positive (- z)
      else toString_positive z
  | NaN => "NaN"
  | Infinity => "Infinity"
  | NegInfinity => "-Infinity"
  end.

(** ** Characters *)

Definition is_digit (c : ascii) : bool :=
  let n := nat_of_ascii c in (48 <=? n)%nat && (n <=? 57)%nat.

(** Value of a character as a digit of [parseInt]: [0-9], [a-z], [A-Z]. *)
Definition digit_value (c : ascii) : option Z :=
  let n := Z.of_nat (nat_of_ascii c) in
  if (48 <=? n) && (n <=? 57) then Some (n - 48)
  else if (97 <=? n) && (n <=? 122) then Some (n - 87)
  else if (65 <=? n) && (n <=? 90) then Some (n - 55)
  else None.

(** White space and line terminators among the first 256 code units. *)
Definition is_space (c : ascii) : bool :=
  let n := nat_of_ascii c in
  (n =? 9)%nat || (n =? 10)%nat || (n =? 11)%nat || (n =? 12)%nat
  || (n =? 13)%nat || (n =? 32)%nat || (n =? 160)%nat.

(** The lower case of a code unit below 256: the letters [A-Z] and the
    capital letters of Latin-1 ([U+00C0] to [U+00DE] without the
    multiplication sign) move up by 32. *)
Definition to_lower (c : ascii) : ascii :=
  let n := nat_of_ascii c in
  if (65 <=? n)%nat && (n <=? 90)%nat then ascii_of_nat (n + 32)
  else if (192 <=? n)%nat && (n <=? 222)%nat && negb (n =? 215)%nat
       then ascii_of_nat (n + 32)
  else c.

(** [s.toLocaleLowerCase()] for a text of code units below 256, in a locale
    without special casing of these. *)
Fixpoint toLocaleLowerCase (s : string) : string :=
  match s with
  | EmptyString => EmptyString
  | String c s' => String (to_lower c) (toLocaleLowerCase s')
  end.

(** Whether the code unit [c] occurs in [s]. *)
Fixpoint has_char (c : ascii) (s : string) : bool :=
  match s with
  | EmptyString => false
  | String c' s' => Ascii.eqb c' c || has_char c s'
  end.

(** Whether [s] consists of decimal digits only. *)
Fixpoint all_digits (s : string) : bool :=
  match s with
  | EmptyString => true
  | String c s' => is_digit c && all_digits s'
  end.

(** What may follow a maximal run of digits: nothing, or a code unit that
    is not a digit. *)
Definition stops_digits (r : string) : Prop :=
  match r with
  | EmptyString => True
  | String c _ => is_digit c = false
  end.

(** [r] starts with a code unit that is not a digit. *)
Definition starts_non_digit (r : string) : Prop :=
  match r with
  | EmptyString => False
  | String c _ => is_digit c = false
  end.

(** ** parseInt *)

Fixpoint trim_start (s : string) : string :=
  match s with
  | String c s' => if is_space c then trim_start s' else s
  | EmptyString => EmptyString
  end.

(** Longest prefix of digits below [radix], read left to right;
    [acc] is [None] until a digit has been read. *)
Fixpoint parse_digits (radix : Z) (acc : option Z) (s : string) : option Z :=
  match s with
  | EmptyString => acc
  | String c s' =>
      match digit_value c with
      | Some d =>
          if d <? radix
          then parse_digits radix (Some (match acc with Some a => a | None => 0 end * radix + d)) s'
          else acc
      | None => acc
      end
  end.

Definition strip_hex_prefix (s : string) : option string :=
  match s with
  | String "0" (String "x" r) => Some r
  | String "0" (String "X" r) => Some r
  | _ => None
  end.

(** An optional sign in front of the digits. *)
Definition split_sign (s : string) : Z * string :=
  match s with
  | String "-" r => (-1, r)
  | String "+" r => (1, r)
  | _ => (1, s)
  end.

(** [parseInt(s, radix)]; [radix = None] is the call with one argument.
    The digits give an integer, and the result is the double nearest to
    it, which is what the engine returns for the radix 10 of the two
    plugins and for the radix 16 of a [0x] prefix. *)
Definition parseInt (s : string) (radix : option Z) : number :=
  let '(sign, s) := split_sign (trim_start s) in
  let R := match radix with Some r => r | None => 0 end in
  if negb (R =? 0) && ((R <? 2) || (36 <? R)) then NaN
  else
    let '(R, s) :=
      if (R =? 0) || (R =? 16) then
        match strip_hex_prefix s with
        | Some r => (16, r)
        | None => (if R =? 0 then 10 else R, s)
        end
      else (R, s) in
    match parse_digits R None s with
    | Some v => double_of_Z (sign * v)
    | None => NaN
    end.

(** ** Searching in strings *)

Fixpoint drop (n : nat) (s : string) : string :=
  match n, s with
  | O, _ => s
  | S n', String _ s' => drop n' s'
  | S _, EmptyString => EmptyString
  end.

(** First occurrence of [pat] in [s]: the text before it and the text
    after it ([StringIndexOf] from position 0). *)
Fixpoint split_first (pat s : string) : option (string * string) :=
  if String.prefix pat s then Some (EmptyString, drop (String.length pat) s)
  else
    match s with
    | EmptyString => None
    | String c s' =>
        match split_first pat s' with
        | Some (before, after) => Some (String c before, after)
        | None => None
        end
    end.

(** [s.includes(pat)]; Obsidian adds [s.contains(pat)] with this meaning. *)
Definition contains (s pat : string) : bool :=
  match split_first pat s with
  | Some _ => true
  | None => false
  end.

(** Index of the last occurrence of [pat] in [s], counted from [i] for the
    first code unit of [s]; [-1] when there is none. *)
Fixpoint lastIndexOf_from (i : Z) (s pat : string) : Z :=
  match s with
  | EmptyString => if String.prefix pat s then i else -1
  | String _ s' =>
      let r := lastIndexOf_from (i + 1) s' pat in
      if 0 <=? r then r
      else if String.prefix pat s then i else -1
  end.

Definition lastIndexOf (s pat : string) : Z := lastIndexOf_from 0 s pat.

(** [s.substring(start, end)]: both ends are clamped to [0 .. length] and
    swapped when out of order; [end = None] is the call with one argument. *)
Definition substring (s : string) (start : Z) (stop : option Z) : string :=
  let len := Z.of_nat (String.length s) in
  let clamp x := Z.min (Z.max x 0) len in
  let a := clamp start in
  let b := match stop with Some e => clamp e | None => len end in
  let from := Z.min a b in
  let to := Z.max a b in
  String.substring (Z.to_nat from) (Z.to_nat (to - from)) s.

(** ** Regular expressions [opening(\d+)closing]

    [opening] and [closing] are literal texts and [closing] does not start
    with a digit.  The greedy [\d+] takes the whole run of digits; giving
    digits back cannot help, since the next code unit would then be a digit
    and not the start of [closing]. *)

(** Longest run of decimal digits at the start of [s], and what follows. *)
Fixpoint span_digits (s : string) : string * string :=
  match s with
  | String c s' =>
      if is_digit c then let '(ds, r) := span_digits s' in (String c ds, r)
      else (EmptyString, s)
  | EmptyString => (EmptyString, EmptyString)
  end.

(** A match of [opening (\d+) closing] at the start of [s]: the digits and
    the text after the match. *)
Definition match_sized_here (opening closing s : string) : option (string * string) :=
  if String.prefix opening s then
    match span_digits (drop (String.length opening) s) with
    | (String d ds, r) =>
        if String.prefix closing r
        then Some (String d ds, drop (String.length closing) r)
        else None
    | (EmptyString, _) => None
    end
  else None.

(** Leftmost match in [s]: text before, digits, text after. *)
Fixpoint exec_sized (opening closing s : string) : option (string * string * string) :=
  match match_sized_here opening closing s with
  | Some (ds, after) => Some (EmptyString, ds, after)
  | None =>
      match s with
      | EmptyString => None
      | String c s' =>
          match exec_sized opening closing s' with
          | Some (before, ds, after) => Some (String c before, ds, after)
          | None => None
          end
      end
  end.

(** ** GetSubstitution and String.prototype.replace *)

Definition capture_text (captures : list (option string)) (index : nat) : option string :=
  match index with
  | O => None
  | S i =>
      match captures !! i with
      | Some (Some c) => Some c
      | Some None => Some EmptyString
      | None => None
      end
  end.

Definition digit_nat (c : ascii) : nat := (nat_of_ascii c - 48)%nat.

(** The replacement text for one match: [$$], [$&], [$`], [$'] and the
    numbered references [$n], [$nn] are expanded, every other code unit is
    copied ([GetSubstitution] with no named groups). *)
Fixpoint getSubstitution (matched before after : string)
    (captures : list (option string)) (template : string) : string :=
  match template with
  | EmptyString => EmptyString
  | String "$" t1 =>
      match t1 with
      | String "$" t2 => "$" +:+ getSubstitution matched before after captures t2
      | String "`" t2 => before +:+ getSubstitution matched before after captures t2
      | String "&" t2 => matched +:+ getSubstitution matched before after captures t2
      | String "'" t2 => after +:+ getSubstitution matched before after captures t2
      | String d1 t2 =>
          if is_digit d1 then
            let one :=
              match capture_text captures (digit_nat d1) with
              | Some c => c +:+ getSubstitution matched before after captures t2
              | None => String "$" (String d1 (getSubstitution matched before after captures t2))
              end in
            match t2 with
            | String d2 t3 =>
                if is_digit d2 then
                  let index := (10 * digit_nat d1 + digit_nat d2)%nat in
                  if (index <=? List.length captures)%nat then
                    match capture_text captures index with
                    | Some c => c +:+ getSubstitution matched before after captures t3
                    | None =>
                        String "$" (String d1 (String d2
                          (getSubstitution matched before after captures t3)))
                    end
                  else one
                else one
            | EmptyString => one
            end
          else String "$" (getSubstitution matched before after captures t1)
      | EmptyString => "$"
      end
  | String c t1 => String c (getSubstitution matched before after captures t1)
  end.

(** [s.replace(pattern, replacement)] with a string pattern: only the first
    occurrence is replaced, and there are no captures. *)
Definition replace (s pattern replacement : string) : string :=
  match split_first pattern s with
  | None => s
  | Some (before, after) =>
      before +:+ getSubstitution pattern before after [] replacement +:+ after
  end.

(** ** Exceptions *)

Inductive error : Type :=
| TypeError
| Error (message : string).

End JS.

(* ================================================================== *)
(** * MouseWheelZoomPlugin: data *)
(* ================================================================== *)

Module MouseWheelZoom.
Import JS.

Inductive ModifierKey : Type := ALT | CTRL | SHIFT.

Definition ModifierKey_toString (k : ModifierKey) : string :=
  match k with
  | ALT => "AltLeft"
  | CTRL => "ControlLeft"
  | SHIFT => "ShiftLeft"
  end.

Record MouseWheelZoomSettings : Type := {
  initialSize : number;
  modifierKey : ModifierKey;
  stepSize : number
}.

Definition DEFAULT_SETTINGS : MouseWheelZoomSettings :=
  {| modifierKey := ALT; stepSize := Num 25; initialSize := Num 500 |}.

(** What the handlers read of a DOM element: its node name and the
    attributes [src], [class] and [filesource] (absent attributes are
    [None]: [getNamedItem] returns [null] for them). *)
Record Element : Type := {
  nodeName : string;
  attr_src : option string;
  classList_value : string;
  attr_filesource : option string
}.

Record KeyboardEvent : Type := { code : string }.

Record WheelEvent : Type := {
  deltaY : number;
  altKey : bool;
  ctrlKey : bool;
  shiftKey : bool;
  target : Element
}.

(** A file of the vault is named by its path. *)
Definition TFile : Type := string.

(** An open pane: whether its container holds a given element, whether its
    view is a [MarkdownView], and the file of the view. *)
Record Leaf : Type := {
  containerEl_contains : Element -> bool;
  view_isMarkdownView : bool;
  view_file : TFile
}.

(** The host: the open panes in the order [iterateAllLeaves] visits them,
    and the value [naturalWidth] has on a fresh [Image] right after its
    [src] is set to a given address. *)
Record Host : Type := {
  leaves : list Leaf;
  naturalWidth : string -> Z
}.

(** [ReplaceTerm] and [HandleZoomParams] are declared in [./src/util], which
    [main.ts] imports.  [sizeMatchRegExp] is kept as what
    [fileText.match(sizeMatchRegExp)] gives: [None] for [null], and the text
    of capture group 1 otherwise. *)
Record ReplaceTerm : Type := {
  getReplaceFromString : number -> string;
  getReplaceWithString : number -> string
}.

Record HandleZoomParams : Type := {
  sizeMatchRegExp : string -> option string;
  replaceSizeExist : ReplaceTerm;
  replaceSizeNotExist : ReplaceTerm
}.

(** The three static methods of [Util] that [getZoomParams] calls. *)
Record Util : Type := {
  getRemoteImageZoomParams : string -> string -> HandleZoomParams;
  getLocalImageNameFromUri : string -> string;
  getLocalImageZoomParams : string -> string -> HandleZoomParams
}.

(** ** The vault and the monad of asynchronous code *)

Inductive vault_call : Type :=
| VaultRead (file : TFile)
| VaultModify (file : TFile) (data : string).

Record World : Type := {
  files : gmap string string;
  calls : list vault_call
}.

Definition result (A : Type) : Type := error + A.

Definition IO (A : Type) : Type := World -> result A * World.

Definition ret {A} (a : A) : IO A := fun w => (inr a, w).

Definition throw {A} (e : error) : IO A := fun w => (inl e, w).

Definition bind {A B} (m : IO A) (k : A -> IO B) : IO B :=
  fun w =>
    match m w with
    | (inr a, w') => k a w'
    | (inl e, w') => (inl e, w')
    end.

Definition lift {A} (r : result A) : IO A := fun w => (r, w).

Notation "'let*' x ':=' m 'in' k" := (bind m (fun x => k))
  (at level 10, x name, m at level 100, k at level 200).

(** The world once [file] has been read, and once [data] has been written
    to [file]. *)
Definition after_read (w : World) (file : TFile) : World :=
  {| files := files w; calls := calls w ++ [VaultRead file] |}.

Definition after_modify (w : World) (file : TFile) (data : string) : World :=
  {| files := <[file := data]> (files w);
     calls := calls w ++ [VaultModify file data] |}.

(** [app.vault.read(file)]: rejects when the file is not in the vault. *)
Definition vault_read (file : TFile) : IO string :=
  fun w =>
    match files w !! file with
    | Some text => (inr text, after_read w file)
    | None => (inl (Error "File not found"), after_read w file)
    end.

(** [app.vault.modify(file, data)]. *)
Definition vault_modify (file : TFile) (data : string) : IO unit :=
  fun w => (inr tt, after_modify w file data).

(** [element.attributes.getNamedItem(name).textContent]. *)
Definition attr_textContent (a : option string) : result string :=
  match a with
  | Some v => inr v
  | None => inl TypeError
  end.

(** ** The plugin object *)

(** [scrollDisabled]: whether [preventDefault] is registered on the window
    for the wheel event. *)
Record Plugin : Type := {
  settings : MouseWheelZoomSettings;
  isKeyHeldDown : bool;
  scrollDisabled : bool
}.

Definition disableScroll (p : Plugin) : Plugin :=
  {| settings := settings p; isKeyHeldDown := isKeyHeldDown p; scrollDisabled := true |}.

Definition enableScroll (p : Plugin) : Plugin :=
  {| settings := settings p; isKeyHeldDown := isKeyHeldDown p; scrollDisabled := false |}.

Definition onConfigKeyUp (p : Plugin) : Plugin :=
  enableScroll
    {| settings := settings p; isKeyHeldDown := false; scrollDisabled := scrollDisabled p |}.

Definition isConfiguredKeyDown (p : Plugin) (evt : WheelEvent) : bool :=
  match modifierKey (settings p) with
  | ALT => altKey evt
  | CTRL => ctrlKey evt
  | SHIFT => shiftKey evt
  end.

(** ** getActivePaneWithImage, getZoomParams, handleZoom *)

(** The promise settles at the first [resolve]; the [reject] after the loop
    only counts when no pane resolved. *)
Definition getActivePaneWithImage (h : Host) (imageElement : Element) : result TFile :=
  match List.find
          (fun leaf => containerEl_contains leaf imageElement && view_isMarkdownView leaf)
          (leaves h) with
  | Some leaf => inr (view_file leaf)
  | None => inl (Error "No file belonging to the image found")
  end.

(** [cls.match("excalidraw-svg.*")]: the string becomes an unanchored
    regular expression, and [.*] also matches the empty text, so the match
    is non-null exactly when the class text contains [excalidraw-svg]. *)
Definition match_excalidraw (cls : string) : bool := contains cls "excalidraw-svg".

Definition getZoomParams (U : Util) (imageUri fileText : string) (target : Element)
  : result HandleZoomParams :=
  if contains imageUri "http" then
    inr (getRemoteImageZoomParams U imageUri fileText)
  else if contains imageUri "app://" then
    let imageName := getLocalImageNameFromUri U imageUri in
    inr (getLocalImageZoomParams U imageName fileText)
  else if match_excalidraw (classList_value target) then
    match attr_textContent (attr_filesource target) with
    | inl e => inl e
    | inr src =>
        let imageName := substring src 0 (Some (Z.of_nat (String.length src) - 3)) in
        let imageNameAfterSlash :=
          substring imageName (lastIndexOf imageName "/" + 1) None in
        inr (getLocalImageZoomParams U imageNameAfterSlash fileText)
    end
  else inl (Error "Image is not zoomable").

(** The size written for an image that already has one: the [if] / [else if]
    on [evt.deltaY] in the first branch of [handleZoom]. *)
Definition zoomedSize (s : MouseWheelZoomSettings) (evt : WheelEvent) (oldSize : number)
  : number :=
  let newSize := oldSize in
  if lt (deltaY evt) (Num 0) then add newSize (stepSize s)
  else if gt (deltaY evt) (Num 0) && gt newSize (stepSize s) then sub newSize (stepSize s)
  else newSize.

(** The text [handleZoom] computes from the text it read: the two branches
    on [sizeMatches]. *)
Definition zoomedText (h : Host) (s : MouseWheelZoomSettings) (evt : WheelEvent)
    (imageUri : string) (zoomParams : HandleZoomParams) (fileText : string) : string :=
  match sizeMatchRegExp zoomParams fileText with
  | Some capture =>
      let oldSize := parseInt capture None in
      let newSize := zoomedSize s evt oldSize in
      replace fileText
        (getReplaceFromString (replaceSizeExist zoomParams) oldSize)
        (getReplaceWithString (replaceSizeExist zoomParams) newSize)
  | None =>
      let initialSize := initialSize s in
      let width := Num (naturalWidth h imageUri) in
      let minWidth := Math_min width initialSize in
      replace fileText
        (getReplaceFromString (replaceSizeNotExist zoomParams) (Num 0))
        (getReplaceWithString (replaceSizeNotExist zoomParams) minWidth)
  end.

Definition handleZoom (U : Util) (h : Host) (s : MouseWheelZoomSettings)
    (evt : WheelEvent) (eventTarget : Element) : IO unit :=
  let* imageUri := lift (attr_textContent (attr_src eventTarget)) in
  let* activeFile := lift (getActivePaneWithImage h eventTarget) in
  let* originalFileText := vault_read activeFile in
  let* zoomParams := lift (getZoomParams U imageUri originalFileText eventTarget) in
  let fileText := zoomedText h s evt imageUri zoomParams originalFileText in
  if String.eqb fileText originalFileText then ret tt
  else vault_modify activeFile fileText.

(** ** The three DOM event handlers registered by [onload] *)

Definition on_keydown (evt : KeyboardEvent) (p : Plugin) : Plugin :=
  if String.eqb (code evt) (ModifierKey_toString (modifierKey (settings p))) then
    disableScroll
      {| settings := settings p; isKeyHeldDown := true; scrollDisabled := scrollDisabled p |}
  else p.

Definition on_keyup (evt : KeyboardEvent) (p : Plugin) : Plugin :=
  if String.eqb (code evt) (ModifierKey_toString (modifierKey (settings p))) then
    onConfigKeyUp p
  else p.

(** The promise of [handleZoom] is dropped: a rejection only ends that call. *)
Definition on_wheel (U : Util) (h : Host) (evt : WheelEvent) (p : Plugin) (w : World)
  : Plugin * World :=
  if isKeyHeldDown p then
    if negb (isConfiguredKeyDown p evt) then (onConfigKeyUp p, w)
    else
      let eventTarget := target evt in
      if String.eqb (nodeName eventTarget) "IMG" then
        (p, snd (handleZoom U h (settings p) evt eventTarget w))
      else (p, w)
  else (p, w).

(** ** The situation in which [handleZoom] reaches its size computation

    The image has a [src] attribute [imageUri], a Markdown pane showing the
    file [file] holds the image, the vault has the text [fileText] for that
    file, and [getZoomParams] resolves the image to [zoomParams]. *)
Definition zoom_ready (U : Util) (h : Host) (eventTarget : Element) (w : World)
    (imageUri : string) (file : TFile) (fileText : string)
    (zoomParams : HandleZoomParams) : Prop :=
  attr_src eventTarget = Some imageUri
  /\ getActivePaneWithImage h eventTarget = inr file
  /\ files w !! file = Some fileText
  /\ getZoomParams U imageUri fileText eventTarget = inr zoomParams.

(** A wheel event that reaches [handleZoom]: the key is held, the event
    reports the configured modifier as down, and the target is an image. *)
Definition zoom_event (p : Plugin) (evt : WheelEvent) : Prop :=
  isKeyHeldDown p = true
  /\ isConfiguredKeyDown p evt = true
  /\ nodeName (target evt) = "IMG".

(** The world after the wheel handler has run, and the text it then holds
    for [file]. *)
Definition world_after (U : Util) (h : Host) (evt : WheelEvent) (p : Plugin) (w : World)
  : World :=
  snd (on_wheel U h evt p w).

Definition text_after (U : Util) (h : Host) (evt : WheelEvent) (p : Plugin) (w : World)
    (file : TFile) : option string :=
  files (world_after U h evt p w) !! file.

(** ** The stream of DOM events

    [registerDomEvent] attaches the three handlers to the document.  An
    event of the stream is a [keydown], a [keyup], or a [wheel] event
    together with the host as it is when the event arrives; each handler
    runs to its end before the next event. *)
Inductive DomEvent : Type :=
| Keydown (evt : KeyboardEvent)
| Keyup (evt : KeyboardEvent)
| Wheel (h : Host) (evt : WheelEvent).

Definition dispatch (U : Util) (ev : DomEvent) (st : Plugin * World) : Plugin * World :=
  match ev with
  | Keydown evt => (on_keydown evt (fst st), snd st)
  | Keyup evt => (on_keyup evt (fst st), snd st)
  | Wheel h evt => on_wheel U h evt (fst st) (snd st)
  end.

Definition run (U : Util) (evs : list DomEvent) (st : Plugin * World) : Plugin * World :=
  fold_left (fun st ev => dispatch U ev st) evs st.

(** A [keydown] of the configured modifier key. *)
Definition presses_modifier (p : Plugin) (ev : DomEvent) : bool :=
  match ev with
  | Keydown evt => String.eqb (code evt) (ModifierKey_toString (modifierKey (settings p)))
  | _ => false
  end.

(** [onunload]. *)
Definition onunload (p : Plugin) : Plugin := enableScroll p.

(** ** loadSettings

    The settings object and the saved data are plain objects: finite maps
    from property names to values.  [loadData] gives [None] for [null]. *)
Inductive value : Type :=
| VNumber (n : number)
| VString (s : string).

(** [Object.assign(target, ...sources)]: the properties of each source are
    copied in turn, later sources overwrite, [null] sources are skipped. *)
Definition Object_assign (target : gmap string value)
    (sources : list (option (gmap string value))) : gmap string value :=
  fold_left (fun acc src => match src with Some o => o ∪ acc | None => acc end)
    sources target.

(** A settings record as the object the plugin holds. *)
Definition settings_object (s : MouseWheelZoomSettings) : gmap string value :=
  <["modifierKey" := VString (ModifierKey_toString (modifierKey s))]>
    (<["stepSize" := VNumber (stepSize s)]>
       (<["initialSize" := VNumber (initialSize s)]> ∅)).

Definition loadSettings (data : option (gmap string value)) : gmap string value :=
  Object_assign ∅ [Some (settings_object DEFAULT_SETTINGS); data].

(** The leaves that [getActivePaneWithImage] resolves with. *)
Definition hosts_image (imageElement : Element) (leaf : Leaf) : bool :=
  containerEl_contains leaf imageElement && view_isMarkdownView leaf.

End MouseWheelZoom.

(* ================================================================== *)
(** * The local-attachment syntax of [Util] *)
(* ================================================================== *)

Module LocalSyntax.
Import JS MouseWheelZoom.

(** Modelled from the spec: [Util.getLocalImageZoomParams], which lives in
    [./src/util] and not in [main.ts].  The spec gives the
    local-attachment syntax: an existing size is found by the pattern
    [![[<escaped-name>|NNN]]] with the name taken literally, and its replace
    rule changes the number between the brackets; an image without a size is
    the text [![[<name>]]], rewritten to [![[<name>|NNN]]]. *)
Definition getLocalImageZoomParams (imageName fileText : string) : HandleZoomParams :=
  {| sizeMatchRegExp := fun text =>
       match exec_sized ("![[" +:+ imageName +:+ "|") "]]" text with
       | Some (_, ds, _) => Some ds
       | None => None
       end;
     replaceSizeExist :=
       {| getReplaceFromString := fun oldSize =>
            "![[" +:+ imageName +:+ "|" +:+ toString oldSize +:+ "]]";
          getReplaceWithString := fun newSize =>
            "![[" +:+ imageName +:+ "|" +:+ toString newSize +:+ "]]" |};
     replaceSizeNotExist :=
       {| getReplaceFromString := fun _ => "![[" +:+ imageName +:+ "]]";
          getReplaceWithString := fun newSize =>
            "![[" +:+ imageName +:+ "|" +:+ toString newSize +:+ "]]" |} |}.

(** [Util] with the local-attachment syntax above; the remote-image syntax
    and the extraction of a file name from an [app://] address stay
    parameters. *)
Definition util (remote : string -> string -> HandleZoomParams)
    (nameFromUri : string -> string) : Util :=
  {| getRemoteImageZoomParams := remote;
     getLocalImageNameFromUri := nameFromUri;
     MouseWheelZoom.getLocalImageZoomParams := getLocalImageZoomParams |}.

End LocalSyntax.

(* ================================================================== *)
(** * ImageResizePlugin: the keyboard shortcuts *)
(* ================================================================== *)

Module ImageResize.
Import JS.

(** The editor of a Markdown view: its lines and the line of the cursor. *)
Record Editor : Type := {
  lines : list string;
  cursor_line : nat
}.

Inductive View : Type :=
| MarkdownView (editor : Editor)
| OtherView.

(** [activeLeaf.view] may be missing. *)
Record WorkspaceLeaf : Type := { view : option View }.

Record KeyboardEvent : Type := {
  ctrlKey : bool;
  shiftKey : bool;
  key : string
}.

Definition getLine (ed : Editor) (n : nat) : option string := lines ed !! n.

Definition setLine (ed : Editor) (n : nat) (text : string) : Editor :=
  {| lines := <[n := text]> (lines ed); cursor_line := cursor_line ed |}.

(** [/\|(\d+)\]/] applied to [line]: the leftmost position where a bar, one
    or more digits and a closing bracket follow each other. *)
Definition regex_exec (line : string) : option (string * string * string) :=
  exec_sized "|" "]" line.

(** [line.replace(/\|(\d+)\]/, replacement)]. *)
Definition replace_regex (line replacement : string) : string :=
  match regex_exec line with
  | Some (before, ds, after) =>
      before
      +:+ getSubstitution ("|" +:+ ds +:+ "]") before after [Some ds] replacement
      +:+ after
  | None => line
  end.

(** [line.replace(/\]/, replacement)]. *)
Definition replace_bracket (line replacement : string) : string :=
  match split_first "]" line with
  | Some (before, after) =>
      before +:+ getSubstitution "]" before after [] replacement +:+ after
  | None => line
  end.

(** The function [resize] declared in [onload].  The result is the active
    leaf after the call; an early [return] and a view that is not a
    [MarkdownView] leave it as it was. *)
Definition resize (scale : number) (activeLeaf : option WorkspaceLeaf)
  : option WorkspaceLeaf :=
  match activeLeaf with
  | Some {| view := Some (MarkdownView cmEditor) |} =>
      let cursor := cursor_line cmEditor in
      match getLine cmEditor cursor with
      | None => activeLeaf
      | Some line =>
          match regex_exec line with
          | Some (_, ds, _) =>
              let matchText := parseInt ds (Some 10) in
              let newWidth := add matchText scale in
              if lt newWidth (Num 50) then activeLeaf
              else
                Some {| view := Some (MarkdownView
                  (setLine cmEditor cursor
                     (replace_regex line ("|" +:+ toString newWidth +:+ "]")))) |}
          | None =>
              let modifiedString := replace_bracket line "|100]" in
              Some {| view := Some (MarkdownView (setLine cmEditor cursor modifiedString)) |}
          end
      end
  | _ => activeLeaf
  end.

(** The [keydown] handler registered by [onload]. *)
Definition on_keydown (evt : KeyboardEvent) (activeLeaf : option WorkspaceLeaf)
  : option WorkspaceLeaf :=
  if ctrlKey evt && shiftKey evt && String.eqb (toLocaleLowerCase (key evt)) "k" then
    resize (Num 100) activeLeaf
  else if ctrlKey evt && shiftKey evt && String.eqb (toLocaleLowerCase (key evt)) "j" then
    resize (Num (-100)) activeLeaf
  else activeLeaf.

(** An active leaf that shows the editor [ed] in a Markdown view. *)
Definition markdown_leaf (ed : Editor) : option WorkspaceLeaf :=
  Some {| view := Some (MarkdownView ed) |}.

(** The line under the cursor of the active Markdown editor. *)
Definition cursor_text (activeLeaf : option WorkspaceLeaf) : option string :=
  match activeLeaf with
  | Some {| view := Some (MarkdownView ed) |} => getLine ed (cursor_line ed)
  | _ => None
  end.

(** The two shortcuts: Ctrl+Shift+K grows, Ctrl+Shift+J shrinks. *)
Definition is_grow (evt : KeyboardEvent) : Prop :=
  ctrlKey evt = true /\ shiftKey evt = true /\ toLocaleLowerCase (key evt) = "k".

Definition is_shrink (evt : KeyboardEvent) : Prop :=
  ctrlKey evt = true /\ shiftKey evt = true /\ toLocaleLowerCase (key evt) = "j".

End ImageResize.

(* ================================================================== *)
(** * Sample data *)
(* ================================================================== *)

Module Samples.
Import JS MouseWheelZoom.

(** The file name in an [app://] address that needs no decoding: the text
    between the last slash and the query. *)
Definition file_name_of (uri : string) : string :=
  let path := match split_first "?" uri with
              | Some (before, _) => before
              | None => uri
              end in
  substring path (lastIndexOf path "/" + 1) None.

(** A [Util] for the samples: the local-attachment syntax throughout. *)
Definition U : Util :=
  LocalSyntax.util LocalSyntax.getLocalImageZoomParams file_name_of.

Definition note : TFile := "Notes/trip.md".

Definition pane : Leaf :=
  {| containerEl_contains := fun _ => true;
     view_isMarkdownView := true;
     view_file := note |}.

(** One open pane; every fresh image reports the width [width]. *)
Definition host (width : Z) : Host :=
  {| leaves := [pane]; naturalWidth := fun _ => width |}.

Definition vault (text : string) : World :=
  {| files := {[ note := text ]}; calls := [] |}.

Definition pic_uri : string := "app://local/home/me/vault/pic.png?1700000000000".

Definition picture : Element :=
  {| nodeName := "IMG";
     attr_src := Some pic_uri;
     classList_value := "";
     attr_filesource := None |}.

(** The parameters [getZoomParams] finds for [picture] in [text]. *)
Definition pic_params (text : string) : HandleZoomParams :=
  LocalSyntax.getLocalImageZoomParams "pic.png" text.

Definition sized_note : string := "see ![[pic.png|100]] here".
Definition floor_note : string := "see ![[pic.png|25]] here".
Definition unsized_note : string := "see ![[pic.png]] here".

Definition web_picture : Element :=
  {| nodeName := "IMG";
     attr_src := Some "https://example.org/cat.png";
     classList_value := "";
     attr_filesource := None |}.

Definition drawing_uri : string := "data:image/svg+xml;base64,PHN2Zz4=".

Definition drawing (filesource : string) : Element :=
  {| nodeName := "IMG";
     attr_src := Some drawing_uri;
     classList_value := "excalidraw-svg excalidraw-embedded-img";
     attr_filesource := Some filesource |}.

(** A drawing whose file name holds two dollar signs, and a note that
    embeds it. *)
Definition dollar_drawing : Element := drawing "Drawings/a$$b.excalidraw.md".
Definition dollar_note : string := "see ![[a$$b.excalidraw|26]] here".

Definition stray_picture : Element :=
  {| nodeName := "IMG";
     attr_src := Some "blob:null/3f1c";
     classList_value := "banner";
     attr_filesource := None |}.

(** A wheel event with Alt down, and one that reports no modifier. *)
Definition wheel (dY : Z) (el : Element) : WheelEvent :=
  {| deltaY := Num dY; altKey := true; ctrlKey := false; shiftKey := false;
     target := el |}.

Definition released_wheel (dY : Z) (el : Element) : WheelEvent :=
  {| deltaY := Num dY; altKey := false; ctrlKey := false; shiftKey := false;
     target := el |}.

(** The plugin after [onload], and with the Alt key held. *)
Definition loaded : Plugin :=
  {| settings := DEFAULT_SETTINGS; isKeyHeldDown := false; scrollDisabled := false |}.

Definition held : Plugin := on_keydown {| code := "AltLeft" |} loaded.

Definition editor_at (line : string) : ImageResize.Editor :=
  {| ImageResize.lines := ["# Trip"; line; "the end"]; ImageResize.cursor_line := 1 |}.

(** A pane of another kind that also holds every image, and a second note. *)
Definition canvas_pane : Leaf :=
  {| containerEl_contains := fun _ => true;
     view_isMarkdownView := false;
     view_file := "Boards/plan.canvas" |}.

Definition other_pane : Leaf :=
  {| containerEl_contains := fun _ => true;
     view_isMarkdownView := true;
     view_file := "Notes/other.md" |}.

Definition crowded_host : Host :=
  {| leaves := [canvas_pane; pane; other_pane]; naturalWidth := fun _ => 640 |}.

Definition canvas_host : Host :=
  {| leaves := [canvas_pane]; naturalWidth := fun _ => 640 |}.

(** A vault with two notes. *)
Definition two_notes : World :=
  {| files := <[note := sized_note]> (<["Notes/other.md" := "nothing here"]> ∅);
     calls := [] |}.

(** A drawing element that lacks the [filesource] attribute. *)
Definition bare_drawing : Element :=
  {| nodeName := "IMG";
     attr_src := Some drawing_uri;
     classList_value := "excalidraw-svg";
     attr_filesource := None |}.

(** An image element without [src] attribute. *)
Definition srcless_picture : Element :=
  {| nodeName := "IMG";
     attr_src := None;
     classList_value := "";
     attr_filesource := None |}.

(** Wheel events without a press of Alt before them. *)
Definition idle_stream : list DomEvent :=
  [Wheel (host 300) (wheel (-3) picture);
   Keydown {| code := "ShiftLeft" |};
   Wheel (host 300) (wheel 3 picture);
   Keyup {| code := "AltLeft" |};
   Wheel (host 300) (wheel (-3) picture)].

(** Alt is pressed, the window loses the key release, a wheel event reports
    Alt as up, then wheel events report it as down again. *)
Definition stuck_stream : list DomEvent :=
  [Keydown {| code := "AltLeft" |};
   Wheel (host 300) (released_wheel (-3) picture);
   Wheel (host 300) (wheel (-3) picture)].

(** Saved data that only holds a step size. *)
Definition partial_data : gmap string value := <["stepSize" := VNumber (Num 40)]> ∅.

Definition tuned_settings : MouseWheelZoomSettings :=
  {| initialSize := Num 300; modifierKey := CTRL; stepSize := Num 10 |}.

Definition two_marks : string := "![[pic.png|150]] and |7] too".
Definition small_mark : string := "![[pic.png|10]]".
Definition plain_key : ImageResize.KeyboardEvent :=
  {| ImageResize.ctrlKey := true; ImageResize.shiftKey := false; ImageResize.key := "k" |}.

Definition no_mark : string := "![[pic.png]] at noon".
Definition zero_mark : string := "![[pic.png|0]]".

Definition grow_key : ImageResize.KeyboardEvent :=
  {| ImageResize.ctrlKey := true; ImageResize.shiftKey := true; ImageResize.key := "K" |}.

Definition shrink_key : ImageResize.KeyboardEvent :=
  {| ImageResize.ctrlKey := true; ImageResize.shiftKey := true; ImageResize.key := "J" |}.

End Samples.

(* ================================================================== *)
(** * Facts about the built-ins *)
(* ================================================================== *)

Import JS.

Section StringFacts.

Lemma app_nil_r (s : string) : s +:+ "" = s.
Proof. induction s as [|c s IH]; simpl; [reflexivity | now rewrite IH]. Qed.

Lemma app_assoc (s t u : string) : (s +:+ t) +:+ u = s +:+ (t +:+ u).
Proof. induction s as [|c s IH]; simpl; [reflexivity | now rewrite IH]. Qed.

Lemma length_app (s t : string) :
  String.length (s +:+ t) = (String.length s + String.length t)%nat.
Proof. induction s as [|c s IH]; simpl; [reflexivity | now rewrite IH]. Qed.

Lemma prefix_nil (s : string) : String.prefix "" s = true.
Proof. now destruct s. Qed.

Lemma prefix_cons (c c' : ascii) (p s : string) :
  String.prefix (String c p) (String c' s)
  = if ascii_dec c c' then String.prefix p s else false.
Proof. reflexivity. Qed.

Lemma prefix_cons_same (c : ascii) (p s : string) :
  String.prefix (String c p) (String c s) = String.prefix p s.
Proof. rewrite prefix_cons. destruct (ascii_dec c c) as [_|Hne]; [reflexivity | now destruct Hne]. Qed.

Lemma prefix_cons_diff (c c' : ascii) (p s : string) :
  c <> c' -> String.prefix (String c p) (String c' s) = false.
Proof. intros Hne. rewrite prefix_cons. now destruct (ascii_dec c c'). Qed.

Lemma prefix_app (p s : string) : String.prefix p (p +:+ s) = true.
Proof.
  induction p as [|c p IH]; simpl; [apply prefix_nil|].
  now rewrite prefix_cons_same.
Qed.

Lemma drop_app (p s : string) : drop (String.length p) (p +:+ s) = s.
Proof. induction p as [|c p IH]; simpl; [reflexivity | exact IH]. Qed.

Lemma prefix_split (p s : string) :
  String.prefix p s = true -> s = p +:+ drop (String.length p) s.
Proof.
  revert s. induction p as [|c p IH]; intros s H; simpl; [reflexivity|].
  destruct s as [|c' s]; [discriminate|].
  rewrite prefix_cons in H. destruct (ascii_dec c c') as [->|]; [|discriminate].
  now rewrite <- (IH s H).
Qed.

Lemma has_char_app (c : ascii) (s t : string) :
  has_char c (s +:+ t) = has_char c s || has_char c t.
Proof.
  induction s as [|c' s IH]; simpl; [reflexivity|].
  now rewrite IH, orb_assoc.
Qed.

Lemma substring_prefix (b e : string) :
  String.substring 0 (String.length b) (b +:+ e) = b.
Proof.
  induction b as [|c b IH]; simpl.
  - now destruct e.
  - now rewrite IH.
Qed.

Lemma substring_suffix (b e : string) :
  String.substring (String.length b) (String.length e) (b +:+ e) = e.
Proof.
  induction b as [|c b IH]; simpl; [|exact IH].
  rewrite <- (app_nil_r e) at 2. apply substring_prefix.
Qed.

End StringFacts.

(** ** [split_first], [contains] and [replace] *)

Section Search.

Lemma split_first_eq (pat s : string) :
  split_first pat s =
  if String.prefix pat s then Some ("", drop (String.length pat) s)
  else match s with
       | "" => None
       | String c s' =>
           match split_first pat s' with
           | Some (before, after) => Some (String c before, after)
           | None => None
           end
       end.
Proof. now destruct s. Qed.

Lemma split_first_sound (pat s before after : string) :
  split_first pat s = Some (before, after) -> s = before +:+ pat +:+ after.
Proof.
  revert before after. induction s as [|c s IH]; intros before after H;
    rewrite split_first_eq in H;
    destruct (String.prefix pat _) eqn:Hp;
    try (injection H as <- <-; now apply prefix_split); try discriminate.
  destruct (split_first pat s) as [[b a]|] eqn:Hs; [|discriminate].
  injection H as <- <-. simpl. now rewrite <- (IH b a eq_refl).
Qed.

Lemma split_first_complete (pat before after : string) :
  split_first pat (before +:+ pat +:+ after) <> None.
Proof.
  induction before as [|c b IH].
  - simpl. rewrite split_first_eq, prefix_app. discriminate.
  - rewrite split_first_eq. simpl.
    destruct (String.prefix pat _); [easy|].
    destruct (split_first pat (b +:+ pat +:+ after)) as [[? ?]|] eqn:E; [easy|].
    now destruct IH.
Qed.

(** [contains] is [String.prototype.includes]. *)
Lemma contains_spec (s pat : string) :
  contains s pat = true <-> exists before after, s = before +:+ pat +:+ after.
Proof.
  unfold contains. split.
  - destruct (split_first pat s) as [[b a]|] eqn:E; [|discriminate].
    intros _. exists b, a. now apply split_first_sound.
  - intros (b & a & ->).
    destruct (split_first pat (b +:+ pat +:+ a)) eqn:E; [reflexivity|].
    now destruct (split_first_complete pat b a).
Qed.

Lemma split_first_char (c : ascii) (before after : string) :
  has_char c before = false ->
  split_first (String c "") (before +:+ String c after) = Some (before, after).
Proof.
  induction before as [|c' b IH]; intros H; simpl.
  - now rewrite prefix_cons_same, prefix_nil.
  - simpl in H. apply orb_false_elim in H as [Hc Hb].
    rewrite prefix_cons_diff, (IH Hb); [reflexivity|].
    intros ->. now rewrite Ascii.eqb_refl in Hc.
Qed.

Lemma split_first_char_none (c : ascii) (s : string) :
  has_char c s = false -> split_first (String c "") s = None.
Proof.
  induction s as [|c' s IH]; intros H; [reflexivity|].
  simpl in H. apply orb_false_elim in H as [Hc Hs].
  rewrite split_first_eq, prefix_cons_diff, (IH Hs); [reflexivity|].
  intros ->. now rewrite Ascii.eqb_refl in Hc.
Qed.

End Search.

(** ** Replacement templates without [$] *)

Section Substitution.

Variables (matched before after : string) (captures : list (option string)).

Lemma getSubstitution_other (c : ascii) (t : string) :
  c <> "$"%char ->
  getSubstitution matched before after captures (String c t)
  = String c (getSubstitution matched before after captures t).
Proof.
  intros Hne.
  destruct c as [[] [] [] [] [] [] [] []]; try reflexivity.
  now destruct Hne.
Qed.

Lemma getSubstitution_plain (t : string) :
  has_char "$" t = false ->
  getSubstitution matched before after captures t = t.
Proof.
  induction t as [|c t IH]; intros H; [reflexivity|].
  simpl in H. apply orb_false_elim in H as [Hc Ht].
  rewrite getSubstitution_other, (IH Ht); [reflexivity|].
  intros ->. discriminate Hc.
Qed.

End Substitution.

Lemma string_of_uint_plain (d : Decimal.uint) :
has_char "$" (NilEmpty.string_of_uint d) = false.
Proof. induction d; simpl; auto. Qed.

Lemma decimal_plain (a : Z) : has_char "$" (decimal a) = false.
Proof.
  unfold decimal, NilZero.string_of_int, NilZero.string_of_uint.
  destruct (Z.to_int a) as [d|d]; destruct d; simpl;
    auto using string_of_uint_plain.
Qed.

Lemma strip_zeros_plain (c : ascii) (s : string) :
  has_char c s = false -> has_char c (strip_zeros s) = false.
Proof.
  induction s as [|c' s IH]; intros H; [reflexivity|].
  simpl in H. apply orb_false_elim in H as [Hc Hs]. specialize (IH Hs).
  simpl. destruct (strip_zeros s) as [|c'' t].
  - destruct (Ascii.eqb c' "0"); [reflexivity|]. simpl. now rewrite Hc.
  - cbn [has_char]. cbn [has_char] in IH. now rewrite Hc, IH.
Qed.

Lemma toString_positive_plain (a : Z) : has_char "$" (toString_positive a) = false.
Proof.
  unfold toString_positive.
  destruct (shortest a <? 10 ^ 21); [apply decimal_plain|].
  pose proof (strip_zeros_plain "$" _ (decimal_plain (shortest a))) as Hs.
  destruct (strip_zeros (decimal (shortest a))) as [|c [|c' rest]].
  - apply decimal_plain.
  - cbn [has_char] in *. apply orb_false_elim in Hs as [Hc _].
    rewrite Hc. cbn [orb].
    change ("e+" +:+ decimal (Z.of_nat (String.length (decimal (shortest a))) - 1))
      with (String "e" (String "+"
              (decimal (Z.of_nat (String.length (decimal (shortest a))) - 1)))).
    cbn [has_char]. apply decimal_plain.
  - cbn [has_char] in Hs. apply orb_false_elim in Hs as [Hc Hr].
    cbn [has_char]. rewrite Hc. cbn [orb].
    change ("." +:+ String c' rest +:+ "e+"
            +:+ decimal (Z.of_nat (String.length (decimal (shortest a))) - 1))
      with (String "." (String c' rest +:+ String "e" (String "+"
              (decimal (Z.of_nat (String.length (decimal (shortest a))) - 1))))).
    cbn [has_char]. rewrite has_char_app. cbn [has_char]. rewrite Hr.
    apply decimal_plain.
Qed.

(** A printed number holds no [$]. *)
Lemma toString_plain (n : number) : has_char "$" (toString n) = false.
Proof.
  destruct n as [z| | |]; try reflexivity.
  unfold toString. destruct (z =? 0); [reflexivity|].
  destruct (z <? 0); [|apply toString_positive_plain].
  change ("-" +:+ toString_positive (- z)) with (String "-" (toString_positive (- z))).
  cbn [has_char]. apply toString_positive_plain.
Qed.

(** Replacing a text by itself changes nothing when it holds no [$]. *)
Lemma replace_same (s r : string) : has_char "$" r = false -> replace s r r = s.
Proof.
intros Hr. unfold replace.
destruct (split_first r s) as [[b a]|] eqn:E; [|reflexivity].
rewrite getSubstitution_plain by exact Hr.
symmetry. now apply split_first_sound.
Qed.

(** ** The regular expressions [opening(\d+)closing] *)

Section Sized.

Lemma span_digits_sound (s ds r : string) :
  span_digits s = (ds, r) -> s = ds +:+ r /\ all_digits ds = true.
Proof.
  revert ds r. induction s as [|c s IH]; intros ds r H; simpl in H.
  - now injection H as <- <-.
  - destruct (is_digit c) eqn:Hc.
    + destruct (span_digits s) as [ds' r'].
      injection H as <- <-. destruct (IH ds' r' eq_refl) as [-> Hd].
      simpl. now rewrite Hc, Hd.
    + now injection H as <- <-.
Qed.

Lemma span_digits_app (ds r : string) :
  all_digits ds = true -> stops_digits r -> span_digits (ds +:+ r) = (ds, r).
Proof.
  intros Hd Hr. induction ds as [|c ds IH]; simpl.
  - destruct r as [|c r]; [reflexivity|]. simpl in *. now rewrite Hr.
  - simpl in Hd. apply andb_prop in Hd as [Hc Hd].
    now rewrite Hc, (IH Hd).
Qed.

Variables opening closing : string.

Lemma match_sized_here_sound (s ds after : string) :
  match_sized_here opening closing s = Some (ds, after) ->
  s = opening +:+ ds +:+ closing +:+ after /\ ds <> "" /\ all_digits ds = true.
Proof.
  unfold match_sized_here. intros H.
  destruct (String.prefix opening s) eqn:Hp; [|discriminate].
  destruct (span_digits _) as [[|d ds'] r] eqn:Hs; [discriminate|].
  destruct (String.prefix closing r) eqn:Hc; [|discriminate].
  injection H as <- <-.
  apply span_digits_sound in Hs as [Hs Hd].
  split; [|split; [discriminate | exact Hd]].
  rewrite (prefix_split _ _ Hp) at 1. rewrite Hs.
  now rewrite (prefix_split _ _ Hc) at 1.
Qed.

Lemma match_sized_here_complete (ds after : string) :
  starts_non_digit closing -> ds <> "" -> all_digits ds = true ->
  match_sized_here opening closing (opening +:+ ds +:+ closing +:+ after)
  = Some (ds, after).
Proof.
  intros Hc Hne Hd. unfold match_sized_here.
  rewrite prefix_app, drop_app, span_digits_app; [| exact Hd |].
  - destruct ds as [|d ds]; [now destruct Hne|].
    now rewrite prefix_app, drop_app.
  - destruct closing; [destruct Hc | exact Hc].
Qed.

Lemma exec_sized_eq (s : string) :
  exec_sized opening closing s =
  match match_sized_here opening closing s with
  | Some (ds, after) => Some ("", ds, after)
  | None =>
      match s with
      | "" => None
      | String c s' =>
          match exec_sized opening closing s' with
          | Some (before, ds, after) => Some (String c before, ds, after)
          | None => None
          end
      end
  end.
Proof. now destruct s. Qed.

(** A match really is an occurrence of the pattern. *)
Lemma exec_sized_sound (s before ds after : string) :
  exec_sized opening closing s = Some (before, ds, after) ->
  s = before +:+ opening +:+ ds +:+ closing +:+ after
  /\ ds <> "" /\ all_digits ds = true.
Proof.
  revert before. induction s as [|c s IH]; intros before H;
    rewrite exec_sized_eq in H;
    destruct (match_sized_here opening closing _) as [[ds' a']|] eqn:Hm;
    try (injection H as <- <- <-; now apply match_sized_here_sound);
    try discriminate.
  destruct (exec_sized opening closing s) as [[[b' ds'] a']|]; [|discriminate].
  injection H as <- <- <-.
  destruct (IH b' eq_refl) as (-> & Hne & Hd). now simpl.
Qed.

(** The match is the leftmost one: the pattern matches at no position
    inside [before]. *)
Lemma exec_sized_leftmost (s before ds after : string) :
  exec_sized opening closing s = Some (before, ds, after) ->
  forall b1 c b2, before = b1 +:+ String c b2 ->
    match_sized_here opening closing (drop (String.length b1) s) = None.
Proof.
  revert before. induction s as [|c0 s IH]; intros before H b1 c b2 Hb;
    rewrite exec_sized_eq in H;
    destruct (match_sized_here opening closing _) as [[ds' a']|] eqn:Hm.
  - injection H as <- <- <-. now destruct b1.
  - discriminate.
  - injection H as <- <- <-. now destruct b1.
  - destruct (exec_sized opening closing s) as [[[b' ds'] a']|] eqn:He; [|discriminate].
    injection H as <- <- <-.
    destruct b1 as [|c1 b1]; simpl in *; [exact Hm|].
    injection Hb as -> ->. now apply (IH _ eq_refl b1 c b2).
Qed.

(** Every text that holds an occurrence of the pattern is matched. *)
Lemma exec_sized_complete (before ds after : string) :
  starts_non_digit closing -> ds <> "" -> all_digits ds = true ->
  exec_sized opening closing (before +:+ opening +:+ ds +:+ closing +:+ after)
  <> None.
Proof.
  intros Hc Hne Hd. induction before as [|c b IH].
  - simpl. rewrite exec_sized_eq, match_sized_here_complete by assumption. easy.
  - rewrite exec_sized_eq. simpl.
    destruct (match_sized_here opening closing _) as [[? ?]|]; [easy|].
    destruct (exec_sized opening closing _) as [[[? ?] ?]|] eqn:E; [easy|].
    now destruct IH.
Qed.

End Sized.

(** ** Rounding to a double *)

Section Doubles.

Lemma round_nonneg_small (a : Z) : a < 2 ^ 53 -> round_nonneg a = Some a.
Proof. intros H. unfold round_nonneg. apply Z.ltb_lt in H. now rewrite H. Qed.

Lemma round_nonneg_pow53 : round_nonneg (2 ^ 53) = Some (2 ^ 53).
Proof. vm_compute. reflexivity. Qed.

(** Rounding never takes a value from above [2 ^ 53] to below it. *)
Lemma round_nonneg_large (a : Z) :
  2 ^ 53 <= a ->
  match round_nonneg a with Some m => 2 ^ 53 <= m | None => True end.
Proof.
  intros H. unfold round_nonneg.
  destruct (a <? 2 ^ 53) eqn:Hlt; [apply Z.ltb_lt in Hlt; lia|].
  cbv zeta.
  destruct (2 ^ 1024 <=? _) eqn:Hover; [exact I|].
  assert (Hlog : 53 <= Z.log2 a) by (apply Z.log2_le_pow2; lia).
  set (e := Z.log2 a - 52) in *.
  assert (He : 1 <= e) by lia.
  assert (Hpe : 2 <= 2 ^ e).
  { change 2 with (2 ^ 1) at 1. apply Z.pow_le_mono_r; lia. }
  assert (Hq : 2 ^ 52 <= a / 2 ^ e).
  { apply Z.div_le_lower_bound; [lia|].
    rewrite <- Z.pow_add_r by lia.
    replace (e + 52) with (Z.log2 a) by lia.
    apply Z.log2_spec. lia. }
  set (q := a / 2 ^ e) in *.
  set (p := 2 ^ e) in *.
  destruct ((2 ^ (e - 1) <? a mod p) || ((a mod p =? 2 ^ (e - 1)) && Z.odd q)); nia.
Qed.

(** Integers up to [2 ^ 53] in absolute value are doubles. *)
Lemma double_of_Z_exact (z : Z) : Z.abs z <= 2 ^ 53 -> double_of_Z z = Num z.
Proof.
  intros H. unfold double_of_Z.
  destruct (Z.eq_dec (Z.abs z) (2 ^ 53)) as [E|E].
  - rewrite E, round_nonneg_pow53. f_equal. lia.
  - rewrite round_nonneg_small by lia. f_equal. lia.
Qed.

(** The double nearest to a value that is not negative is infinite or at
    least the smaller of the value and [2 ^ 53]. *)
Lemma double_of_Z_cases (z : Z) :
  0 <= z ->
  double_of_Z z = Infinity
  \/ exists m, double_of_Z z = Num m /\ Z.min z (2 ^ 53) <= m.
Proof.
  intros H.
  destruct (Z_lt_le_dec z (2 ^ 53)) as [Hs|Hl].
  - right. exists z. split; [apply double_of_Z_exact|]; lia.
  - pose proof (round_nonneg_large z Hl) as Hr.
    unfold double_of_Z. rewrite Z.abs_eq by lia.
    destruct (round_nonneg z) as [m|].
    + right. exists (Z.sgn z * m). split; [reflexivity|].
      rewrite Z.sgn_pos by lia. lia.
    + left. assert (Hz : (0 <? z) = true) by (apply Z.ltb_lt; lia).
      now rewrite Hz.
Qed.

Lemma double_of_Z_nonneg (z : Z) : 0 <= z -> nonneg (double_of_Z z).
Proof.
  intros H. destruct (double_of_Z_cases z H) as [->|(m & -> & Hm)]; simpl; lia.
Qed.

Lemma double_of_Z_positive (z : Z) : 0 < z -> above_zero (double_of_Z z).
Proof.
  intros H.
  destruct (double_of_Z_cases z) as [->|(m & -> & Hm)]; simpl; lia.
Qed.

(** Rounding does not take a value below a bound that is itself a small
    integer. *)
Lemma double_of_Z_not_below (c z : Z) :
  0 <= c <= 2 ^ 53 -> c <= z -> lt (double_of_Z z) (Num c) = false.
Proof.
  intros Hc H.
  destruct (double_of_Z_cases z) as [->|(m & -> & Hm)]; [lia | reflexivity |].
  simpl. apply Z.ltb_ge. lia.
Qed.

(** Below [2 ^ 1023] rounding does not overflow. *)
Lemma round_nonneg_finite (a : Z) :
  2 ^ 53 <= a < 2 ^ 1023 -> round_nonneg a <> None.
Proof.
  intros H. unfold round_nonneg.
  destruct (a <? 2 ^ 53) eqn:Hlt; [discriminate|].
  cbv zeta.
  assert (Hlog : 53 <= Z.log2 a) by (apply Z.log2_le_pow2; lia).
  assert (Hlog' : Z.log2 a < 1023) by (apply Z.log2_lt_pow2; lia).
  pose proof (Z.log2_spec a ltac:(lia)) as [_ Hup].
  set (e := Z.log2 a - 52) in *.
  assert (Hpe : 0 < 2 ^ e) by (apply Z.pow_pos_nonneg; lia).
  assert (Hpe' : 2 ^ e <= 2 ^ 970) by (apply Z.pow_le_mono_r; lia).
  assert (Hq : a / 2 ^ e < 2 ^ 53).
  { apply Z.div_lt_upper_bound; [exact Hpe|].
    rewrite <- Z.pow_add_r by lia.
    replace (e + 53) with (Z.succ (Z.log2 a)) by lia. exact Hup. }
  assert (Hq0 : 0 <= a / 2 ^ e) by (apply Z.div_pos; lia).
  set (q := a / 2 ^ e) in *.
  set (p := 2 ^ e) in *.
  set (q' := if (2 ^ (e - 1) <? a mod p) || ((a mod p =? 2 ^ (e - 1)) && Z.odd q)
             then q + 1 else q).
  assert (Hq' : 0 <= q' <= 2 ^ 53) by (subst q'; destruct (_ || _); lia).
  assert (Hm : q' * p <= 2 ^ 53 * 2 ^ 970)
    by (apply Z.mul_le_mono_nonneg; lia).
  assert (Hover : (2 ^ 1024 <=? q' * p) = false) by (apply Z.leb_gt; lia).
  now rewrite Hover.
Qed.

(** The double nearest to a value below [2 ^ 1023] that is not negative
    is finite. *)
Lemma double_of_Z_finite (z : Z) :
  0 <= z < 2 ^ 1023 ->
  exists m, double_of_Z z = Num m /\ Z.min z (2 ^ 53) <= m.
Proof.
  intros H.
  destruct (double_of_Z_cases z) as [E|Hm]; [lia | | exact Hm].
  exfalso. unfold double_of_Z in E. rewrite Z.abs_eq in E by lia.
  destruct (Z_lt_le_dec z (2 ^ 53)) as [Hs|Hl].
  - now rewrite round_nonneg_small in E by exact Hs.
  - pose proof (round_nonneg_finite z ltac:(lia)) as Hf.
    destruct (round_nonneg z); [discriminate | now destruct Hf].
Qed.

Lemma add_exact (x y : Z) :
  Z.abs (x + y) <= 2 ^ 53 -> add (Num x) (Num y) = Num (x + y).
Proof. intros H. simpl. now apply double_of_Z_exact. Qed.

Lemma sub_exact (x y : Z) :
  Z.abs (x - y) <= 2 ^ 53 -> sub (Num x) (Num y) = Num (x - y).
Proof.
  intros H. unfold sub. cbn [neg add].
  replace (x + - y) with (x - y) by lia. now apply double_of_Z_exact.
Qed.

(** Adding a small bound that is not negative to a number that is not
    negative gives no less than the bound. *)
Lemma add_not_below (n : number) (c d : Z) :
  nonneg n -> 0 <= c <= 2 ^ 53 -> c <= d ->
  lt (add n (Num d)) (Num c) = false.
Proof.
  intros Hn Hc Hd. destruct n as [x| | |]; simpl in Hn; try contradiction.
  - cbn [add]. apply double_of_Z_not_below; lia.
  - reflexivity.
Qed.

(** Only the integer itself reads back as a safe integer. *)
Lemma reads_as_safe (a y : Z) :
  0 < a < 2 ^ 53 -> reads_as a y = true -> y = a.
Proof.
  intros Ha H. unfold reads_as in H.
  apply andb_prop in H as [Hy H]. apply Z.ltb_lt in Hy.
  destruct (double_of_Z_cases y) as [E|(m & E & Hm)]; [lia | |];
    rewrite E in H; [discriminate|].
  apply Z.eqb_eq in H. subst m.
  rewrite double_of_Z_exact in E by lia. now injection E.
Qed.

Lemma reads_as_above (a y : Z) :
  0 < a < 2 ^ 53 -> a < y -> reads_as a y = false.
Proof.
  intros Ha Hy. destruct (reads_as a y) eqn:E; [|reflexivity].
  apply reads_as_safe in E; lia.
Qed.

(** The shortest digits that read back as a safe integer are its own. *)
Lemma shortest_go_safe (steps : nat) (a p : Z) :
  0 < a < 2 ^ 53 -> 0 <= p -> shortest_go steps a p = a.
Proof.
  intros Ha. revert p. induction steps as [|k IH]; intros p Hp; [reflexivity|].
  cbn [shortest_go]. cbv zeta.
  assert (Hhi : reads_as a (a / p * p + p) = false).
  { destruct (Z.eq_dec p 0) as [->|Hp0].
    - rewrite Z.mul_0_r. reflexivity.
    - apply reads_as_above; [exact Ha|].
      pose proof (Z.mod_pos_bound a p ltac:(lia)).
      pose proof (Z.div_mod a p Hp0). lia. }
  rewrite Hhi.
  destruct (reads_as a (a / p * p)) eqn:Hlo.
  - now apply reads_as_safe in Hlo.
  - apply IH. apply Z.div_pos; lia.
Qed.

Lemma shortest_safe (a : Z) : 0 < a < 2 ^ 53 -> shortest a = a.
Proof.
  intros Ha. unfold shortest. apply shortest_go_safe; [exact Ha|].
  apply Z.pow_nonneg. lia.
Qed.

(** A safe integer prints as its decimal digits. *)
Lemma toString_safe (n : Z) : 0 <= n < 2 ^ 53 -> toString (Num n) = decimal n.
Proof.
  intros Hn. unfold toString.
  destruct (Z.eqb_spec n 0) as [->|Hn0]; [reflexivity|].
  assert (Hneg : (n <? 0) = false) by (apply Z.ltb_ge; lia).
  rewrite Hneg. unfold toString_positive. cbv zeta.
  rewrite shortest_safe by lia.
  assert (Hs : (n <? 10 ^ 21) = true) by (apply Z.ltb_lt; lia).
  now rewrite Hs.
Qed.

(** Roundings and printed texts of some doubles beyond the safe
    integers. *)
Example doubles_rounded :
  double_of_Z 9007199254740993 = Num 9007199254740992
  /\ double_of_Z 9007199254740995 = Num 9007199254740996
  /\ add (Num 9007199254740992) (Num 25) = Num 9007199254741016
  /\ sub (Num 9007199254740992) (Num 1) = Num 9007199254740991
  /\ double_of_Z (2 ^ 1024 - 2 ^ 970) = Infinity
  /\ double_of_Z (- 2 ^ 1024) = NegInfinity.
Proof. repeat split; vm_compute; reflexivity. Qed.

Example doubles_printed :
  toString (double_of_Z (2 ^ 60)) = "1152921504606847000"
  /\ toString (double_of_Z (2 ^ 70)) = "1.1805916207174113e+21"
  /\ toString (double_of_Z (10 ^ 21 - 2 ^ 17)) = "999999999999999900000"
  /\ toString (double_of_Z (10 ^ 21)) = "1e+21"
  /\ toString (double_of_Z (10 ^ 23)) = "1e+23"
  /\ toString (double_of_Z (- 2 ^ 70)) = "-1.1805916207174113e+21"
  /\ toString (double_of_Z (2 ^ 1024 - 2 ^ 971)) = "1.7976931348623157e+308".
Proof. repeat split; vm_compute; reflexivity. Qed.

End Doubles.

(** ** [parseInt] on a run of digits *)

Section ParseInt.

Lemma digit_value_digit (c : ascii) :
  is_digit c = true -> exists d, digit_value c = Some d /\ 0 <= d < 10.
Proof.
  intros H.
  destruct c as [[] [] [] [] [] [] [] []]; try discriminate H;
    eexists; (split; [vm_compute; reflexivity | lia]).
Qed.

Lemma trim_start_digit (c : ascii) (s : string) :
  is_digit c = true -> trim_start (String c s) = String c s.
Proof.
  intros H.
  destruct c as [[] [] [] [] [] [] [] []]; try discriminate H; reflexivity.
Qed.

Lemma split_sign_digit (c : ascii) (s : string) :
  is_digit c = true -> split_sign (String c s) = (1, String c s).
Proof.
  intros H.
  destruct c as [[] [] [] [] [] [] [] []]; try discriminate H; reflexivity.
Qed.

Lemma strip_hex_prefix_digits (s : string) :
  all_digits s = true -> strip_hex_prefix s = None.
Proof.
  destruct s as [|c [|c2 s]]; intros H; [reflexivity | |].
  - destruct c as [[] [] [] [] [] [] [] []]; reflexivity.
  - simpl in H. apply andb_prop in H as [_ H]. apply andb_prop in H as [H _].
    destruct c2 as [[] [] [] [] [] [] [] []]; try discriminate H;
      destruct c as [[] [] [] [] [] [] [] []]; reflexivity.
Qed.

Lemma parse_digits_digits (s : string) (acc : Z) :
  all_digits s = true -> 0 <= acc ->
  exists v, parse_digits 10 (Some acc) s = Some v /\ 0 <= v.
Proof.
  revert acc. induction s as [|c s IH]; intros acc Hd Hacc; simpl.
  - now exists acc.
  - simpl in Hd. apply andb_prop in Hd as [Hc Hd].
    destruct (digit_value_digit c Hc) as (d & -> & Hd0 & Hd10).
    apply Z.ltb_lt in Hd10 as ->. apply IH; [exact Hd | lia].
Qed.

Lemma parse_digits_start (s : string) :
  all_digits s = true -> s <> "" ->
  exists v, parse_digits 10 None s = Some v /\ 0 <= v.
Proof.
  destruct s as [|c s]; intros Hd Hne; [now destruct Hne|].
  simpl in *. apply andb_prop in Hd as [Hc Hd].
  destruct (digit_value_digit c Hc) as (d & -> & Hd0 & Hd10).
  apply Z.ltb_lt in Hd10 as ->. apply parse_digits_digits; [exact Hd | lia].
Qed.

(** A run of digits parses to the double nearest to its value [v], which
    is not negative, with radix 10 and with no radix alike. *)
Lemma parseInt_digits (ds : string) :
  all_digits ds = true -> ds <> "" ->
  exists v, 0 <= v
    /\ parseInt ds None = double_of_Z v
    /\ parseInt ds (Some 10) = double_of_Z v.
Proof.
  intros Hd Hne.
  destruct (parse_digits_start ds Hd Hne) as (v & Hv & Hv0).
  exists v. split; [exact Hv0|].
  destruct ds as [|c s]; [now destruct Hne|].
  assert (Hc : is_digit c = true) by (simpl in Hd; now apply andb_prop in Hd).
  unfold parseInt.
  rewrite (trim_start_digit c s Hc), (split_sign_digit c s Hc).
  rewrite (strip_hex_prefix_digits _ Hd).
  set (t := String c s) in *. clearbody t. cbn -[double_of_Z Z.mul].
  rewrite Hv, Z.mul_1_l. split; reflexivity.
Qed.

(** The number a run of digits parses to is not negative. *)
Lemma parseInt_digits_nonneg (ds : string) :
  all_digits ds = true -> ds <> "" -> nonneg (parseInt ds (Some 10)).
Proof.
  intros Hd Hne. destruct (parseInt_digits ds Hd Hne) as (v & Hv & _ & ->).
  now apply double_of_Z_nonneg.
Qed.

End ParseInt.

(* ================================================================== *)
(** * ImageResizePlugin: the keyboard step *)
(* ================================================================== *)

Section KeyboardStep.
Import ImageResize.

Lemma keydown_grow (evt : KeyboardEvent) (leaf : option WorkspaceLeaf) :
  is_grow evt -> on_keydown evt leaf = resize (Num 100) leaf.
Proof. intros (Hc & Hs & Hk). unfold on_keydown. now rewrite Hc, Hs, Hk. Qed.

Lemma keydown_shrink (evt : KeyboardEvent) (leaf : option WorkspaceLeaf) :
  is_shrink evt -> on_keydown evt leaf = resize (Num (-100)) leaf.
Proof. intros (Hc & Hs & Hk). unfold on_keydown. now rewrite Hc, Hs, Hk. Qed.

(** The regular expression of [resize] matches exactly the lines that
    hold a bar, digits and a closing bracket in a row. *)
Lemma regex_exec_some_iff (line : string) :
  regex_exec line <> None <->
  exists before ds after,
    line = before +:+ "|" +:+ ds +:+ "]" +:+ after
    /\ ds <> "" /\ all_digits ds = true.
Proof.
  unfold regex_exec. split.
  - destruct (exec_sized "|" "]" line) as [[[b ds] a]|] eqn:E; [|easy].
    intros _. exists b, ds, a. now apply exec_sized_sound.
  - intros (b & ds & a & -> & Hne & Hd).
    now apply (exec_sized_complete "|" "]").
Qed.

(** The replacement [|N]] of [resize] is copied as it is. *)
Lemma replace_regex_size (line before ds after : string) (n : number) :
  regex_exec line = Some (before, ds, after) ->
  replace_regex line ("|" +:+ toString n +:+ "]")
  = before +:+ "|" +:+ toString n +:+ "]" +:+ after.
Proof.
  intros H. unfold replace_regex. rewrite H.
  rewrite getSubstitution_plain; [simpl; now rewrite app_assoc|].
  change ("|" +:+ toString n +:+ "]") with (String "|" (toString n +:+ "]")).
  cbn [has_char]. now rewrite has_char_app, toString_plain.
Qed.

Lemma resize_matched (scale : number) (ed : Editor) (line before ds after : string) :
  getLine ed (cursor_line ed) = Some line ->
  regex_exec line = Some (before, ds, after) ->
  resize scale (markdown_leaf ed) =
    if lt (add (parseInt ds (Some 10)) scale) (Num 50) then markdown_leaf ed
    else markdown_leaf (setLine ed (cursor_line ed)
           (before +:+ "|" +:+ toString (add (parseInt ds (Some 10)) scale)
            +:+ "]" +:+ after)).
Proof.
  intros Hl Hm. unfold resize, markdown_leaf.
  rewrite Hl, Hm.
  destruct (lt _ _); [reflexivity|].
  now rewrite (replace_regex_size line before ds after).
Qed.

(** With a parsed value in the safe range the sum and the difference of
    [resize] are those of the integers. *)
Lemma resize_matched_safe
    (scale N : Z) (ed : Editor) (line before ds after : string) :
  getLine ed (cursor_line ed) = Some line ->
  regex_exec line = Some (before, ds, after) ->
  parseInt ds (Some 10) = Num N ->
  Z.abs (N + scale) <= 2 ^ 53 ->
  resize (Num scale) (markdown_leaf ed) =
    if N + scale <? 50 then markdown_leaf ed
    else markdown_leaf (setLine ed (cursor_line ed)
           (before +:+ "|" +:+ toString (Num (N + scale)) +:+ "]" +:+ after)).
Proof.
  intros Hl Hm Hp Hs.
  rewrite (resize_matched _ ed line before ds after Hl Hm), Hp.
  now rewrite (add_exact N scale Hs).
Qed.

Lemma resize_unmatched (scale : number) (ed : Editor) (line : string) :
  getLine ed (cursor_line ed) = Some line ->
  regex_exec line = None ->
  resize scale (markdown_leaf ed)
  = markdown_leaf (setLine ed (cursor_line ed) (replace_bracket line "|100]")).
Proof. intros Hl Hm. unfold resize, markdown_leaf. now rewrite Hl, Hm. Qed.

(** A line without a closing bracket is written back as it is. *)
Lemma replace_bracket_none (line : string) :
  has_char "]" line = false -> replace_bracket line "|100]" = line.
Proof.
  intros H. unfold replace_bracket. now rewrite split_first_char_none.
Qed.

Lemma replace_bracket_first (before after : string) :
  has_char "]" before = false ->
  replace_bracket (before +:+ "]" +:+ after) "|100]" = before +:+ "|100]" +:+ after.
Proof.
  intros H. unfold replace_bracket.
  change ("]" +:+ after) with (String "]" after).
  now rewrite split_first_char.
Qed.

(** C2.  On a cursor line whose first annotation is [|ds]] (the line is
    [before |ds] after] and no annotation starts inside [before]), the
    digits parse to a number [N] that is not negative, the grow shortcut
    computes [N + 100] and the shrink shortcut [N - 100] as doubles;
    when that is below 50 the active leaf is left as it is, and
    otherwise the first annotation of the line is rewritten to the
    printed new value and nothing else changes.  For a parsed integer
    [n] with [n + 100] below [2 ^ 53] the new value is the integer
    [n + delta], the test is that of the integers, and a value written
    is written in plain decimal digits. *)
Theorem keyboard_step_matched
    (evt : KeyboardEvent) (delta : Z) (ed : Editor) (line before ds after : string) :
  (is_grow evt /\ delta = 100) \/ (is_shrink evt /\ delta = -100) ->
  getLine ed (cursor_line ed) = Some line ->
  regex_exec line = Some (before, ds, after) ->
  exists N : number,
    nonneg N
    /\ parseInt ds (Some 10) = N
    /\ line = before +:+ "|" +:+ ds +:+ "]" +:+ after
    /\ (forall b1 c b2, before = b1 +:+ String c b2 ->
          match_sized_here "|" "]" (drop (String.length b1) line) = None)
    /\ on_keydown evt (markdown_leaf ed) =
         (if lt (add N (Num delta)) (Num 50) then markdown_leaf ed
          else markdown_leaf (setLine ed (cursor_line ed)
                 (before +:+ "|" +:+ toString (add N (Num delta)) +:+ "]" +:+ after)))
    /\ (forall n, N = Num n -> n + 100 < 2 ^ 53 ->
          add N (Num delta) = Num (n + delta)
          /\ lt (add N (Num delta)) (Num 50) = (n + delta <? 50)
          /\ (50 <= n + delta ->
               toString (add N (Num delta)) = decimal (n + delta))).
Proof.
  intros Hevt Hl Hm.
  destruct (exec_sized_sound "|" "]" line before ds after Hm) as (Hline & Hne & Hd).
  pose proof (parseInt_digits_nonneg ds Hd Hne) as HN.
  exists (parseInt ds (Some 10)).
  split; [exact HN|]. split; [reflexivity|]. split; [exact Hline|].
  split; [exact (exec_sized_leftmost "|" "]" line before ds after Hm)|].
  split.
  - destruct Hevt as [[Hg ->]|[Hs ->]].
    + rewrite (keydown_grow evt _ Hg). now apply (resize_matched _ ed line).
    + rewrite (keydown_shrink evt _ Hs). now apply (resize_matched _ ed line).
  - intros n Hn Hsafe. rewrite Hn in HN |- *. simpl in HN.
    assert (Hd' : Z.abs (n + delta) <= 2 ^ 53) by (destruct Hevt as [[_ ->]|[_ ->]]; lia).
    rewrite (add_exact n delta Hd').
    split; [reflexivity|]. split; [reflexivity|].
    intros H50. apply toString_safe. destruct Hevt as [[_ ->]|[_ ->]]; lia.
Qed.

(** C5.  On a cursor line without annotation, the grow and the shrink
    shortcut alike put [|100]] in the place of the first closing bracket
    of the line and keep the text before and after it. *)
Theorem keyboard_step_unmatched
    (evt : KeyboardEvent) (ed : Editor) (line before after : string) :
  is_grow evt \/ is_shrink evt ->
  getLine ed (cursor_line ed) = Some line ->
  regex_exec line = None ->
  line = before +:+ "]" +:+ after ->
  has_char "]" before = false ->
  on_keydown evt (markdown_leaf ed)
  = markdown_leaf (setLine ed (cursor_line ed) (before +:+ "|100]" +:+ after)).
Proof.
  intros Hevt Hl Hm Hline Hb.
  rewrite <- (replace_bracket_first before after Hb), <- Hline.
  destruct Hevt as [Hg|Hs].
  - rewrite (keydown_grow evt _ Hg). now apply resize_unmatched.
  - rewrite (keydown_shrink evt _ Hs). now apply resize_unmatched.
Qed.

(** C9.  The grow shortcut on a line with an annotation never takes the
    early return: the parsed number is not negative (a safe integer, a
    rounded larger one, or [Infinity]), the new width, computed as a
    double, is below neither 100 nor 50, and the annotation is rewritten
    to the printed new width. *)
Theorem keyboard_grow_always_rewrites
    (evt : KeyboardEvent) (ed : Editor) (line before ds after : string) :
  is_grow evt ->
  getLine ed (cursor_line ed) = Some line ->
  regex_exec line = Some (before, ds, after) ->
  exists N : number,
    parseInt ds (Some 10) = N
    /\ nonneg N
    /\ lt (add N (Num 100)) (Num 100) = false
    /\ lt (add N (Num 100)) (Num 50) = false
    /\ on_keydown evt (markdown_leaf ed) =
         markdown_leaf (setLine ed (cursor_line ed)
           (before +:+ "|" +:+ toString (add N (Num 100)) +:+ "]" +:+ after)).
Proof.
  intros Hg Hl Hm.
  destruct (exec_sized_sound "|" "]" line before ds after Hm) as (_ & Hne & Hd).
  pose proof (parseInt_digits_nonneg ds Hd Hne) as HN.
  assert (H50 : lt (add (parseInt ds (Some 10)) (Num 100)) (Num 50) = false)
    by (apply add_not_below; [exact HN | lia | lia]).
  exists (parseInt ds (Some 10)).
  split; [reflexivity|]. split; [exact HN|].
  split; [apply add_not_below; [exact HN | lia | lia]|].
  split; [exact H50|].
  rewrite (keydown_grow evt _ Hg), (resize_matched _ ed line before ds after Hl Hm).
  now rewrite H50.
Qed.

End KeyboardStep.

(* ================================================================== *)
(** * MouseWheelZoomPlugin: resolving the annotation syntax *)
(* ================================================================== *)

Section Resolver.
Import MouseWheelZoom.

Lemma lastIndexOf_from_absent (c : ascii) (s : string) (i : Z) :
  has_char c s = false -> lastIndexOf_from i s (String c "") = -1.
Proof.
  revert i. induction s as [|c' s IH]; intros i H; [reflexivity|].
  simpl in H. apply orb_false_elim in H as [Hc Hs].
  simpl. rewrite (IH _ Hs). simpl.
  rewrite prefix_cons_diff; [reflexivity|].
  intros ->. now rewrite Ascii.eqb_refl in Hc.
Qed.

Lemma lastIndexOf_from_last (c : ascii) (dir name : string) (i : Z) :
  0 <= i -> has_char c name = false ->
  lastIndexOf_from i (dir +:+ String c name) (String c "")
  = i + Z.of_nat (String.length dir).
Proof.
  intros Hi Hn. revert i Hi. induction dir as [|c' dir IH]; intros i Hi.
  - simpl. rewrite (lastIndexOf_from_absent c name _ Hn). simpl.
    rewrite prefix_cons_same, prefix_nil. lia.
  - cbn [append lastIndexOf_from String.length].
    rewrite IH by lia.
    destruct (0 <=? i + 1 + Z.of_nat (String.length dir)) eqn:E; [lia|].
    apply Z.leb_gt in E. lia.
Qed.

(** Every text is free of slashes or ends in a slash and a text free of
    slashes. *)
Lemma last_char_split (c : ascii) (s : string) :
  has_char c s = false
  \/ exists dir name, s = dir +:+ String c name /\ has_char c name = false.
Proof.
  induction s as [|c' s IH]; [now left|].
  destruct IH as [Hs|(dir & name & -> & Hn)].
  - destruct (Ascii.eqb c' c) eqn:E.
    + right. exists "", s. apply Ascii.eqb_eq in E as ->. now split.
    + left. simpl. now rewrite E, Hs.
  - right. exists (String c' dir), name. now split.
Qed.

(** [src.substring(0, src.length - 3)] drops the last three code units. *)
Lemma substring_strip3 (body ext : string) :
  String.length ext = 3%nat ->
  substring (body +:+ ext) 0 (Some (Z.of_nat (String.length (body +:+ ext)) - 3)) = body.
Proof.
  intros He. unfold substring. rewrite length_app, He.
  set (n := String.length body).
  replace (Z.min (Z.max 0 0) (Z.of_nat (n + 3))) with 0 by lia.
  replace (Z.min (Z.max (Z.of_nat (n + 3) - 3) 0) (Z.of_nat (n + 3)))
    with (Z.of_nat n) by lia.
  replace (Z.min 0 (Z.of_nat n)) with 0 by lia.
  replace (Z.max 0 (Z.of_nat n) - 0) with (Z.of_nat n) by lia.
  rewrite Nat2Z.id. apply substring_prefix.
Qed.

(** [name.substring(name.lastIndexOf("/") + 1)] is the text after the
    last slash. *)
Lemma substring_after_last_slash (dir name : string) :
  has_char "/" name = false ->
  let s := dir +:+ String "/" name in
  substring s (lastIndexOf s "/" + 1) None = name.
Proof.
  intros Hn s. unfold lastIndexOf. subst s.
  rewrite (lastIndexOf_from_last "/" dir name 0) by (lia || exact Hn).
  unfold substring.
  change (dir +:+ String "/" name) with (dir +:+ "/" +:+ name).
  rewrite <- app_assoc, length_app.
  set (n := String.length (dir +:+ "/")).
  assert (Hn' : Z.of_nat n = Z.of_nat (String.length dir) + 1)
    by (unfold n; rewrite length_app; simpl; lia).
  set (m := String.length name).
  replace (Z.min (Z.max (0 + Z.of_nat (String.length dir) + 1) 0) (Z.of_nat (n + m)))
    with (Z.of_nat n) by lia.
  replace (Z.min (Z.of_nat n) (Z.of_nat (n + m))) with (Z.of_nat n) by lia.
  replace (Z.max (Z.of_nat n) (Z.of_nat (n + m)) - Z.of_nat n)
    with (Z.of_nat m) by lia.
  rewrite !Nat2Z.id. apply substring_suffix.
Qed.

(** Without a slash, [lastIndexOf] is [-1] and the whole text is kept. *)
Lemma substring_no_slash (name : string) :
  has_char "/" name = false ->
  substring name (lastIndexOf name "/" + 1) None = name.
Proof.
  intros Hn. unfold lastIndexOf.
  rewrite (lastIndexOf_from_absent "/" name 0 Hn).
  unfold substring. set (m := String.length name).
  replace (Z.min (Z.max (-1 + 1) 0) (Z.of_nat m)) with 0 by lia.
  replace (Z.min 0 (Z.of_nat m)) with 0 by lia.
  replace (Z.max 0 (Z.of_nat m) - 0) with (Z.of_nat m) by lia.
  rewrite Nat2Z.id. simpl. unfold m.
  rewrite <- (app_nil_r name) at 2. apply substring_prefix.
Qed.

Variable U : Util.

(** [handleZoom] when [getZoomParams] throws: the file has been read and
    is not written. *)
Lemma handleZoom_unresolved (h : Host) (s : MouseWheelZoomSettings)
    (evt : WheelEvent) (el : Element) (w : World)
    (uri : string) (file : TFile) (text : string) (e : error) :
  attr_src el = Some uri ->
  getActivePaneWithImage h el = inr file ->
  files w !! file = Some text ->
  getZoomParams U uri text el = inl e ->
  handleZoom U h s evt el w = (inl e, after_read w file).
Proof.
  intros Hsrc Hpane Hfile Hzp.
  unfold handleZoom, bind, lift, vault_read.
  rewrite Hsrc. cbn [attr_textContent]. rewrite Hpane. cbv beta iota.
  rewrite Hfile. cbv beta iota. now rewrite Hzp.
Qed.

(** C4.  [getZoomParams] tries three tests in order and takes the first
    that succeeds: an address containing [http] gives the remote-image
    syntax; otherwise an address containing [app://] gives the
    local-attachment syntax for the name taken from the address;
    otherwise a class text matching the drawing marker gives the
    local-attachment syntax for the name derived from [filesource];
    otherwise it throws, and [handleZoom] then ends with that error
    after the read, without writing to the vault. *)
Theorem resolver_dispatch (uri text : string) (el : Element) :
  (contains uri "http" = true ->
     getZoomParams U uri text el = inr (getRemoteImageZoomParams U uri text))
  /\ (contains uri "http" = false -> contains uri "app://" = true ->
     getZoomParams U uri text el
     = inr (getLocalImageZoomParams U (getLocalImageNameFromUri U uri) text))
  /\ (contains uri "http" = false -> contains uri "app://" = false ->
      match_excalidraw (classList_value el) = true ->
      forall src, attr_filesource el = Some src ->
      let imageName := substring src 0 (Some (Z.of_nat (String.length src) - 3)) in
      getZoomParams U uri text el
      = inr (getLocalImageZoomParams U
               (substring imageName (lastIndexOf imageName "/" + 1) None) text))
  /\ (contains uri "http" = false -> contains uri "app://" = false ->
      match_excalidraw (classList_value el) = false ->
      getZoomParams U uri text el = inl (Error "Image is not zoomable")
      /\ forall h s evt w file,
           attr_src el = Some uri ->
           getActivePaneWithImage h el = inr file ->
           files w !! file = Some text ->
           handleZoom U h s evt el w
           = (inl (Error "Image is not zoomable"), after_read w file)).
Proof.
  assert (Hthrow : contains uri "http" = false -> contains uri "app://" = false ->
                   match_excalidraw (classList_value el) = false ->
                   getZoomParams U uri text el = inl (Error "Image is not zoomable"))
    by (unfold getZoomParams; now intros -> -> ->).
  split; [|split; [|split]].
  - unfold getZoomParams. now intros ->.
  - unfold getZoomParams. now intros -> ->.
  - unfold getZoomParams. intros -> -> -> src Hsrc. now rewrite Hsrc.
  - intros H1 H2 H3. split; [now apply Hthrow|].
    intros h s evt w file Hsrc Hpane Hfile.
    exact (handleZoom_unresolved h s evt el w uri file text
             (Error "Image is not zoomable") Hsrc Hpane Hfile (Hthrow H1 H2 H3)).
Qed.

(** C6.  For an image with the drawing marker, the name handed to the
    local-attachment syntax is the [filesource] text without its last
    three code units, and of that the part after the last slash (all of
    it when there is no slash). *)
Theorem drawing_embed_name (uri text : string) (el : Element)
    (body ext name : string) :
  contains uri "http" = false ->
  contains uri "app://" = false ->
  match_excalidraw (classList_value el) = true ->
  attr_filesource el = Some (body +:+ ext) ->
  String.length ext = 3%nat ->
  has_char "/" name = false ->
  body = name \/ (exists dir, body = dir +:+ "/" +:+ name) ->
  getZoomParams U uri text el = inr (getLocalImageZoomParams U name text).
Proof.
  intros H1 H2 H3 Hsrc Hext Hname Hbody.
  unfold getZoomParams. rewrite H1, H2, H3, Hsrc. cbn [attr_textContent].
  rewrite (substring_strip3 body ext Hext).
  destruct Hbody as [->|[dir ->]].
  - now rewrite (substring_no_slash name Hname).
  - change (dir +:+ "/" +:+ name) with (dir +:+ String "/" name).
    now rewrite (substring_after_last_slash dir name Hname).
Qed.

End Resolver.

(* ================================================================== *)
(** * MouseWheelZoomPlugin: the wheel handler *)
(* ================================================================== *)

Section WheelZoom.
Import MouseWheelZoom.

Variables (U : Util) (h : Host).

(** [handleZoom] from reading the file on: the new text is computed and
    written only when it differs from the text read. *)
Lemma handleZoom_run (s : MouseWheelZoomSettings) (evt : WheelEvent) (el : Element)
    (w : World) (uri : string) (file : TFile) (text : string) (zp : HandleZoomParams) :
  zoom_ready U h el w uri file text zp ->
  handleZoom U h s evt el w =
    (inr tt,
     if String.eqb (zoomedText h s evt uri zp text) text then after_read w file
     else after_modify (after_read w file) file (zoomedText h s evt uri zp text)).
Proof.
  intros (Hsrc & Hpane & Hfile & Hzp).
  unfold handleZoom, bind, lift, vault_read.
  rewrite Hsrc. cbn [attr_textContent]. rewrite Hpane. cbv beta iota.
  rewrite Hfile. cbv beta iota. rewrite Hzp. cbv beta iota zeta.
  now destruct (String.eqb _ text).
Qed.

Lemma on_wheel_zoom (evt : WheelEvent) (p : Plugin) (w : World) :
  zoom_event p evt ->
  on_wheel U h evt p w = (p, snd (handleZoom U h (settings p) evt (target evt) w)).
Proof.
  intros (Hheld & Hkey & Himg). unfold on_wheel.
  rewrite Hheld, Hkey, Himg. reflexivity.
Qed.

Lemma world_after_zoom (evt : WheelEvent) (p : Plugin) (w : World)
    (uri : string) (file : TFile) (text : string) (zp : HandleZoomParams) :
  zoom_event p evt ->
  zoom_ready U h (target evt) w uri file text zp ->
  world_after U h evt p w =
    if String.eqb (zoomedText h (settings p) evt uri zp text) text
    then after_read w file
    else after_modify (after_read w file) file (zoomedText h (settings p) evt uri zp text).
Proof.
  intros Hevt Hready. unfold world_after.
  now rewrite (on_wheel_zoom evt p w Hevt), (handleZoom_run _ _ _ _ _ _ _ _ Hready).
Qed.

(** The text of the file after a wheel event that reaches the size
    computation is the text [handleZoom] computed. *)
Lemma text_after_zoom (evt : WheelEvent) (p : Plugin) (w : World)
    (uri : string) (file : TFile) (text : string) (zp : HandleZoomParams) :
  zoom_event p evt ->
  zoom_ready U h (target evt) w uri file text zp ->
  text_after U h evt p w file = Some (zoomedText h (settings p) evt uri zp text).
Proof.
  intros Hevt Hready. unfold text_after.
  rewrite (world_after_zoom evt p w uri file text zp Hevt Hready).
  destruct (String.eqb_spec (zoomedText h (settings p) evt uri zp text) text) as [->|_].
  - now destruct Hready as (_ & _ & Hfile & _).
  - cbn [after_modify after_read files]. apply lookup_insert_eq.
Qed.

(** Every way [handleZoom] can end: nothing read, the file read, or the
    file read and then written with a text that differs. *)
Lemma handleZoom_calls (s : MouseWheelZoomSettings) (evt : WheelEvent) (el : Element)
    (w : World) :
  snd (handleZoom U h s evt el w) = w
  \/ (exists file, snd (handleZoom U h s evt el w) = after_read w file)
  \/ (exists file text data,
        files w !! file = Some text /\ data <> text
        /\ snd (handleZoom U h s evt el w) = after_modify (after_read w file) file data).
Proof.
  unfold handleZoom, bind, lift, vault_read.
  destruct (attr_src el) as [uri|]; cbn [attr_textContent]; [|now left].
  destruct (getActivePaneWithImage h el) as [e|file]; cbv beta iota; [now left|].
  destruct (files w !! file) as [text|] eqn:Hfile; cbv beta iota;
    [|right; left; now exists file].
  destruct (getZoomParams U uri text el) as [e|zp]; cbv beta iota zeta;
    [right; left; now exists file|].
  destruct (String.eqb_spec (zoomedText h s evt uri zp text) text) as [Heq|Hne].
  - right; left. now exists file.
  - right; right. now exists file, text, (zoomedText h s evt uri zp text).
Qed.

(** The size after a wheel event with [deltaY = 0] is the old size. *)
Lemma zoomedSize_zero (s : MouseWheelZoomSettings) (evt : WheelEvent) (oldSize : number) :
  deltaY evt = Num 0 -> zoomedSize s evt oldSize = oldSize.
Proof. intros H. unfold zoomedSize, gt. now rewrite H. Qed.

(** With [deltaY = 0] the text is kept when the replace-from and the
    replace-with text of the old size are one text that holds no [$]. *)
Lemma zero_delta_plain (evt : WheelEvent) (p : Plugin) (w : World)
    (uri : string) (file : TFile) (text capture : string) (zp : HandleZoomParams) :
  zoom_event p evt ->
  zoom_ready U h (target evt) w uri file text zp ->
  sizeMatchRegExp zp text = Some capture ->
  deltaY evt = Num 0 ->
  getReplaceFromString (replaceSizeExist zp) (parseInt capture None)
  = getReplaceWithString (replaceSizeExist zp) (parseInt capture None) ->
  has_char "$" (getReplaceWithString (replaceSizeExist zp) (parseInt capture None)) = false ->
  world_after U h evt p w = after_read w file.
Proof.
  intros Hevt Hready Hm Hd Hsame Hplain.
  rewrite (world_after_zoom evt p w uri file text zp Hevt Hready).
  unfold zoomedText. rewrite Hm, (zoomedSize_zero _ _ _ Hd), Hsame.
  now rewrite (replace_same text _ Hplain), String.eqb_refl.
Qed.

(** A number above zero is not below it. *)
Lemma gt_zero_not_lt (a : number) : gt a (Num 0) = true -> lt a (Num 0) = false.
Proof.
  destruct a as [x| | |]; cbn [gt lt]; try easy.
  intros H. apply Z.ltb_lt in H. apply Z.ltb_ge. lia.
Qed.

(** C1.  For an image whose annotation parses to the number [V], with
    step [S]: a wheel event with [deltaY < 0] writes the size [V + S];
    one with [deltaY > 0] writes [V - S] when [V > S], the comparison
    being made on the old size, and [V] otherwise.  Sum and difference
    are those of doubles; for integers [v] and [s] the comparison is
    [s < v], and the sum and the difference are the integers [v + s] and
    [v - s] as long as these stay within [2 ^ 53]. *)
Theorem wheel_zoom_size (evt : WheelEvent) (p : Plugin) (w : World)
    (uri : string) (file : TFile) (text capture : string) (zp : HandleZoomParams)
    (V S : number) :
  zoom_event p evt ->
  zoom_ready U h (target evt) w uri file text zp ->
  sizeMatchRegExp zp text = Some capture ->
  parseInt capture None = V ->
  stepSize (settings p) = S ->
  (lt (deltaY evt) (Num 0) = true ->
     text_after U h evt p w file
     = Some (replace text
               (getReplaceFromString (replaceSizeExist zp) V)
               (getReplaceWithString (replaceSizeExist zp) (add V S))))
  /\ (gt (deltaY evt) (Num 0) = true -> gt V S = true ->
     text_after U h evt p w file
     = Some (replace text
               (getReplaceFromString (replaceSizeExist zp) V)
               (getReplaceWithString (replaceSizeExist zp) (sub V S))))
  /\ (gt (deltaY evt) (Num 0) = true -> gt V S = false ->
     text_after U h evt p w file
     = Some (replace text
               (getReplaceFromString (replaceSizeExist zp) V)
               (getReplaceWithString (replaceSizeExist zp) V)))
  /\ (forall v s : Z, V = Num v -> S = Num s ->
        gt V S = (s <? v)
        /\ (Z.abs (v + s) <= 2 ^ 53 -> add V S = Num (v + s))
        /\ (Z.abs (v - s) <= 2 ^ 53 -> sub V S = Num (v - s))).
Proof.
  intros Hevt Hready Hm HV HS.
  rewrite (text_after_zoom evt p w uri file text zp Hevt Hready).
  unfold zoomedText, zoomedSize. rewrite Hm, HV, HS. cbv zeta.
  split; [|split; [|split]].
  - intros H. now rewrite H.
  - intros H1 H2. now rewrite (gt_zero_not_lt _ H1), H1, H2.
  - intros H1 H2. now rewrite (gt_zero_not_lt _ H1), H1, H2.
  - intros v s -> ->. split; [reflexivity|].
    split; intros Hb; [now apply add_exact | now apply sub_exact].
Qed.

(** C3.  For an image without annotation, the size written is the smaller
    of the natural width reported for the image and the configured
    initial size. *)
Theorem wheel_zoom_initial_size (evt : WheelEvent) (p : Plugin) (w : World)
    (uri : string) (file : TFile) (text : string) (zp : HandleZoomParams) (I : Z) :
  zoom_event p evt ->
  zoom_ready U h (target evt) w uri file text zp ->
  sizeMatchRegExp zp text = None ->
  initialSize (settings p) = Num I ->
  text_after U h evt p w file
  = Some (replace text
            (getReplaceFromString (replaceSizeNotExist zp) (Num 0))
            (getReplaceWithString (replaceSizeNotExist zp)
               (Num (Z.min (naturalWidth h uri) I)))).
Proof.
  intros Hevt Hready Hm HI.
  rewrite (text_after_zoom evt p w uri file text zp Hevt Hready).
  unfold zoomedText. now rewrite Hm, HI.
Qed.

(** C7.  A wheel event that arrives while the key-held flag is set, but
    that reports the configured modifier as not pressed, clears the flag,
    re-enables scrolling and touches neither the vault nor its log. *)
Theorem stuck_modifier_defense (evt : WheelEvent) (p : Plugin) (w : World) :
  isKeyHeldDown p = true ->
  isConfiguredKeyDown p evt = false ->
  on_wheel U h evt p w
  = ({| settings := settings p; isKeyHeldDown := false; scrollDisabled := false |}, w).
Proof. intros Hheld Hkey. unfold on_wheel. now rewrite Hheld, Hkey. Qed.

(** C8.  A wheel event reads the file at most once and writes it at most
    once, after the read and only with a text that differs from the text
    read; when the size computation is reached, the file is read once,
    and it is written exactly when the computed text differs. *)
Theorem write_back_frame (evt : WheelEvent) (p : Plugin) (w : World) :
  (world_after U h evt p w = w
   \/ (exists file, world_after U h evt p w = after_read w file)
   \/ (exists file text data,
         files w !! file = Some text /\ data <> text
         /\ world_after U h evt p w = after_modify (after_read w file) file data))
  /\ (forall uri file text zp,
        zoom_event p evt ->
        zoom_ready U h (target evt) w uri file text zp ->
        (zoomedText h (settings p) evt uri zp text = text ->
           world_after U h evt p w = after_read w file)
        /\ (zoomedText h (settings p) evt uri zp text <> text ->
           world_after U h evt p w
           = after_modify (after_read w file) file
               (zoomedText h (settings p) evt uri zp text))).
Proof.
  split.
  - unfold world_after, on_wheel.
    destruct (isKeyHeldDown p); [|now left].
    destruct (negb (isConfiguredKeyDown p evt)); [now left|].
    destruct (String.eqb (nodeName (target evt)) "IMG"); [|now left].
    apply handleZoom_calls.
  - intros uri file text zp Hevt Hready.
    rewrite (world_after_zoom evt p w uri file text zp Hevt Hready).
    destruct (String.eqb_spec (zoomedText h (settings p) evt uri zp text) text)
      as [Heq|Hne]; split; intros H; first [reflexivity | contradiction].
Qed.

End WheelZoom.

(* ================================================================== *)
(** * A wheel event with [deltaY = 0] *)
(* ================================================================== *)

Section ZeroDelta.
Import MouseWheelZoom Samples.

(** With the local-attachment syntax, a wheel event with [deltaY = 0] only
    reads the file when the name of the image holds no [$]. *)
Lemma zero_delta_local (V : Util) (h : Host) (evt : WheelEvent) (p : Plugin) (w : World)
    (uri : string) (file : TFile) (text capture name : string) :
  has_char "$" name = false ->
  zoom_event p evt ->
  zoom_ready V h (target evt) w uri file text
    (LocalSyntax.getLocalImageZoomParams name text) ->
  sizeMatchRegExp (LocalSyntax.getLocalImageZoomParams name text) text = Some capture ->
  deltaY evt = Num 0 ->
  world_after V h evt p w = after_read w file.
Proof.
  intros Hname Hevt Hready Hm Hd.
  apply (zero_delta_plain V h evt p w uri file text capture _ Hevt Hready Hm Hd);
    [reflexivity|].
  cbn [LocalSyntax.getLocalImageZoomParams replaceSizeExist getReplaceWithString].
  now rewrite !has_char_app, Hname, toString_plain.
Qed.

(** C10.  A wheel event with [deltaY = 0] over a sized image takes
    neither branch and replaces the annotation of size [V] by the
    annotation of size [V]; yet the document does not always stay as it
    is.  The replace-with text goes through the [$] patterns of
    [String.prototype.replace]: for the drawing [a$$b.excalidraw] the
    name in the note loses a [$], and the changed text is written back. *)
Theorem zero_delta_rewrites_dollar_name :
  zoom_event held (wheel 0 dollar_drawing)
  /\ zoom_ready U (host 800) dollar_drawing (vault dollar_note) drawing_uri note
       dollar_note (LocalSyntax.getLocalImageZoomParams "a$$b.excalidraw" dollar_note)
  /\ sizeMatchRegExp
       (LocalSyntax.getLocalImageZoomParams "a$$b.excalidraw" dollar_note) dollar_note
     = Some "26"
  /\ zoomedSize (settings held) (wheel 0 dollar_drawing) (parseInt "26" None) = Num 26
  /\ world_after U (host 800) (wheel 0 dollar_drawing) held (vault dollar_note)
     = after_modify (after_read (vault dollar_note) note) note
         "see ![[a$b.excalidraw|26]] here".
Proof.
  split; [|split; [|split; [|split]]].
  - unfold zoom_event. split; [reflexivity | split; reflexivity].
  - unfold zoom_ready.
    split; [reflexivity | split; [reflexivity | split; reflexivity]].
  - vm_compute. reflexivity.
  - vm_compute. reflexivity.
  - vm_compute. reflexivity.
Qed.

End ZeroDelta.

(* ================================================================== *)
(** * The theorems at sample inputs *)
(* ================================================================== *)

Section Witnesses.
Import MouseWheelZoom Samples.

Lemma held_zoom_event (dY : Z) (el : Element) :
  nodeName el = "IMG" -> zoom_event held (wheel dY el).
Proof. intros H. unfold zoom_event. split; [reflexivity | split; [reflexivity | exact H]]. Qed.

Lemma picture_ready (width : Z) (text : string) :
  zoom_ready U (host width) picture (vault text) pic_uri note text (pic_params text).
Proof.
  unfold zoom_ready.
  split; [reflexivity | split; [reflexivity | split]].
  - unfold vault. cbn [files]. apply lookup_singleton_eq.
  - reflexivity.
Qed.

(** Zooming in on [![[pic.png|100]]] with the default step 25. *)
Lemma wheel_zoom_size_witness :
  zoom_event held (wheel (-3) picture)
  /\ zoom_ready U (host 800) picture (vault sized_note) pic_uri note sized_note
       (pic_params sized_note)
  /\ sizeMatchRegExp (pic_params sized_note) sized_note = Some "100"
  /\ parseInt "100" None = Num 100
  /\ stepSize (settings held) = Num 25
  /\ lt (deltaY (wheel (-3) picture)) (Num 0) = true
  /\ text_after U (host 800) (wheel (-3) picture) held (vault sized_note) note
     = Some (JS.replace sized_note
               (getReplaceFromString (replaceSizeExist (pic_params sized_note)) (Num 100))
               (getReplaceWithString (replaceSizeExist (pic_params sized_note))
                  (add (Num 100) (Num 25)))).
Proof.
  assert (Hm : sizeMatchRegExp (pic_params sized_note) sized_note = Some "100")
    by (vm_compute; reflexivity).
  assert (Hp : parseInt "100" None = Num 100) by (vm_compute; reflexivity).
  split; [now apply held_zoom_event|].
  split; [apply picture_ready|].
  split; [exact Hm|]. split; [exact Hp|].
  split; [reflexivity|]. split; [reflexivity|].
  apply (proj1 (wheel_zoom_size U (host 800) (wheel (-3) picture) held (vault sized_note)
                  pic_uri note sized_note "100" (pic_params sized_note)
                  (Num 100) (Num 25)
                  (held_zoom_event (-3) picture eq_refl) (picture_ready 800 sized_note)
                  Hm Hp eq_refl)).
  reflexivity.
Defined.

(** The three cases of the size computation on [![[pic.png|...]]] with the
    default step 25. *)
Example zoom_in_100 :
  text_after U (host 800) (wheel (-3) picture) held (vault sized_note) note
  = Some "see ![[pic.png|125]] here".
Proof. vm_compute. reflexivity. Qed.

Example zoom_out_100 :
  text_after U (host 800) (wheel 3 picture) held (vault sized_note) note
  = Some "see ![[pic.png|75]] here".
Proof. vm_compute. reflexivity. Qed.

Example zoom_out_25 :
  text_after U (host 800) (wheel 3 picture) held (vault floor_note) note
  = Some "see ![[pic.png|25]] here".
Proof. vm_compute. reflexivity. Qed.

(** Beyond [2 ^ 53] the sizes are rounded: [9007199254740992 + 25] is the
    double [9007199254741016], and the annotation [9007199254740993], which
    is no double, parses to [9007199254740992], whose annotation the note
    does not hold, so that the text stays as it is. *)
Example zoom_in_rounds :
  text_after U (host 800) (wheel (-3) picture) held
    (vault "see ![[pic.png|9007199254740992]] here") note
  = Some "see ![[pic.png|9007199254741016]] here".
Proof. vm_compute. reflexivity. Qed.

Example zoom_in_odd_annotation :
  text_after U (host 800) (wheel (-3) picture) held
    (vault "see ![[pic.png|9007199254740993]] here") note
  = Some "see ![[pic.png|9007199254740993]] here".
Proof. vm_compute. reflexivity. Qed.

(** [![[pic.png]]] with initial size 500 and natural width 300. *)
Lemma wheel_zoom_initial_size_witness :
  zoom_event held (wheel (-3) picture)
  /\ zoom_ready U (host 300) picture (vault unsized_note) pic_uri note unsized_note
       (pic_params unsized_note)
  /\ sizeMatchRegExp (pic_params unsized_note) unsized_note = None
  /\ initialSize (settings held) = Num 500
  /\ text_after U (host 300) (wheel (-3) picture) held (vault unsized_note) note
     = Some (JS.replace unsized_note
               (getReplaceFromString (replaceSizeNotExist (pic_params unsized_note)) (Num 0))
               (getReplaceWithString (replaceSizeNotExist (pic_params unsized_note))
                  (Num (Z.min (naturalWidth (host 300) pic_uri) 500)))).
Proof.
  assert (Hm : sizeMatchRegExp (pic_params unsized_note) unsized_note = None)
    by (vm_compute; reflexivity).
  split; [now apply held_zoom_event|].
  split; [apply picture_ready|].
  split; [exact Hm|]. split; [reflexivity|].
  exact (wheel_zoom_initial_size U (host 300) (wheel (-3) picture) held
           (vault unsized_note) pic_uri note unsized_note (pic_params unsized_note) 500
           (held_zoom_event (-3) picture eq_refl) (picture_ready 300 unsized_note)
           Hm eq_refl).
Defined.

(** The two sizes of the example: natural width 300 and 800 against the
    initial size 500. *)
Example initial_size_300 :
  text_after U (host 300) (wheel (-3) picture) held (vault unsized_note) note
  = Some "see ![[pic.png|300]] here".
Proof. vm_compute. reflexivity. Qed.

Example initial_size_800 :
  text_after U (host 800) (wheel (-3) picture) held (vault unsized_note) note
  = Some "see ![[pic.png|500]] here".
Proof. vm_compute. reflexivity. Qed.

(** The four kinds of image: remote, local, drawing, none of them. *)
Lemma resolver_dispatch_witness :
  getZoomParams U "https://example.org/cat.png" "text" web_picture
  = inr (getRemoteImageZoomParams U "https://example.org/cat.png" "text")
  /\ getZoomParams U pic_uri "text" picture
     = inr (getLocalImageZoomParams U (getLocalImageNameFromUri U pic_uri) "text")
  /\ getZoomParams U drawing_uri "text" (drawing "Drawings/map.excalidraw.md")
     = inr (getLocalImageZoomParams U "map.excalidraw" "text")
  /\ getZoomParams U "blob:null/3f1c" "text" stray_picture
     = inl (Error "Image is not zoomable")
  /\ handleZoom U (host 300) DEFAULT_SETTINGS (wheel 3 stray_picture) stray_picture
       (vault "text")
     = (inl (Error "Image is not zoomable"), after_read (vault "text") note).
Proof.
  split; [|split; [|split; [|split]]].
  - exact (proj1 (resolver_dispatch U "https://example.org/cat.png" "text" web_picture)
             eq_refl).
  - exact (proj1 (proj2 (resolver_dispatch U pic_uri "text" picture)) eq_refl eq_refl).
  - exact (proj1 (proj2 (proj2 (resolver_dispatch U drawing_uri "text"
                    (drawing "Drawings/map.excalidraw.md"))))
             eq_refl eq_refl eq_refl "Drawings/map.excalidraw.md" eq_refl).
  - exact (proj1 (proj2 (proj2 (proj2 (resolver_dispatch U "blob:null/3f1c" "text"
                    stray_picture))) eq_refl eq_refl eq_refl)).
  - apply (proj2 (proj2 (proj2 (proj2 (resolver_dispatch U "blob:null/3f1c" "text"
                    stray_picture))) eq_refl eq_refl eq_refl)).
    + reflexivity.
    + reflexivity.
    + unfold vault. cbn [files]. apply lookup_singleton_eq.
Defined.

(** The drawing [Drawings/map.excalidraw.md] is the attachment
    [map.excalidraw]. *)
Lemma drawing_embed_name_witness :
  contains drawing_uri "http" = false
  /\ contains drawing_uri "app://" = false
  /\ match_excalidraw (classList_value (drawing "Drawings/map.excalidraw.md")) = true
  /\ attr_filesource (drawing "Drawings/map.excalidraw.md")
     = Some ("Drawings/map.excalidraw" +:+ ".md")
  /\ String.length ".md" = 3%nat
  /\ has_char "/" "map.excalidraw" = false
  /\ ("Drawings/map.excalidraw" = "map.excalidraw"
      \/ exists dir, "Drawings/map.excalidraw" = dir +:+ "/" +:+ "map.excalidraw")
  /\ getZoomParams U drawing_uri "text" (drawing "Drawings/map.excalidraw.md")
     = inr (getLocalImageZoomParams U "map.excalidraw" "text").
Proof.
  assert (Hdir : "Drawings/map.excalidraw" = "map.excalidraw"
                 \/ exists dir, "Drawings/map.excalidraw" = dir +:+ "/" +:+ "map.excalidraw")
    by (right; exists "Drawings"; reflexivity).
  repeat (split; [reflexivity|]).
  split; [exact Hdir|].
  apply (drawing_embed_name U drawing_uri "text" (drawing "Drawings/map.excalidraw.md")
           "Drawings/map.excalidraw" ".md" "map.excalidraw");
    first [reflexivity | exact Hdir].
Defined.

(** Alt pressed, then a wheel event that reports Alt as released. *)
Lemma stuck_modifier_defense_witness :
  isKeyHeldDown held = true
  /\ isConfiguredKeyDown held (released_wheel (-3) picture) = false
  /\ on_wheel U (host 300) (released_wheel (-3) picture) held (vault unsized_note)
     = ({| settings := settings held; isKeyHeldDown := false; scrollDisabled := false |},
        vault unsized_note).
Proof.
  split; [reflexivity | split; [reflexivity|]].
  apply (stuck_modifier_defense U (host 300) (released_wheel (-3) picture) held);
    reflexivity.
Defined.

(** A zoom that changes the size and a zoom at the floor. *)
Lemma write_back_frame_witness :
  world_after U (host 800) (wheel 3 picture) held (vault sized_note)
  = after_modify (after_read (vault sized_note) note) note "see ![[pic.png|75]] here"
  /\ world_after U (host 800) (wheel 3 picture) held (vault floor_note)
     = after_read (vault floor_note) note.
Proof.
  split.
  - apply (proj2 (proj2 (write_back_frame U (host 800) (wheel 3 picture) held
                    (vault sized_note))
                    pic_uri note sized_note (pic_params sized_note)
                    (held_zoom_event 3 picture eq_refl) (picture_ready 800 sized_note))).
    vm_compute. discriminate.
  - apply (proj1 (proj2 (write_back_frame U (host 800) (wheel 3 picture) held
                    (vault floor_note))
                    pic_uri note floor_note (pic_params floor_note)
                    (held_zoom_event 3 picture eq_refl) (picture_ready 800 floor_note))).
    vm_compute. reflexivity.
Defined.

End Witnesses.

Section KeyboardWitnesses.
Import ImageResize Samples.

Lemma shrink_key_is_shrink : is_shrink shrink_key.
Proof. unfold is_shrink. split; [reflexivity | split; reflexivity]. Qed.

Lemma grow_key_is_grow : is_grow grow_key.
Proof. unfold is_grow. split; [reflexivity | split; reflexivity]. Qed.

(** Shrinking [|150]] to [|50]], the smallest step that is still made. *)
Lemma keyboard_step_matched_witness :
  ((is_grow shrink_key /\ -100 = 100) \/ (is_shrink shrink_key /\ -100 = -100))
  /\ getLine (editor_at two_marks) (cursor_line (editor_at two_marks)) = Some two_marks
  /\ regex_exec two_marks = Some ("![[pic.png", "150", "] and |7] too")
  /\ exists N : number,
       nonneg N
       /\ parseInt "150" (Some 10) = N
       /\ two_marks = "![[pic.png" +:+ "|" +:+ "150" +:+ "]" +:+ "] and |7] too"
       /\ (forall b1 c b2, "![[pic.png" = b1 +:+ String c b2 ->
             match_sized_here "|" "]" (drop (String.length b1) two_marks) = None)
       /\ on_keydown shrink_key (markdown_leaf (editor_at two_marks)) =
            (if lt (add N (Num (-100))) (Num 50) then markdown_leaf (editor_at two_marks)
             else markdown_leaf
                    (setLine (editor_at two_marks) (cursor_line (editor_at two_marks))
                       ("![[pic.png" +:+ "|" +:+ toString (add N (Num (-100))) +:+ "]"
                        +:+ "] and |7] too")))
       /\ (forall n, N = Num n -> n + 100 < 2 ^ 53 ->
             add N (Num (-100)) = Num (n + -100)
             /\ lt (add N (Num (-100))) (Num 50) = (n + -100 <? 50)
             /\ (50 <= n + -100 ->
                  toString (add N (Num (-100))) = decimal (n + -100))).
Proof.
  split; [right; split; [exact shrink_key_is_shrink | reflexivity]|].
  split; [reflexivity | split; [reflexivity|]].
  apply (keyboard_step_matched shrink_key (-100) (editor_at two_marks) two_marks
           "![[pic.png" "150" "] and |7] too").
  - right. split; [exact shrink_key_is_shrink | reflexivity].
  - reflexivity.
  - reflexivity.
Defined.

Example shrink_150 :
  cursor_text (on_keydown shrink_key (markdown_leaf (editor_at two_marks)))
  = Some "![[pic.png|50]] and |7] too".
Proof. vm_compute. reflexivity. Qed.

(** Shrinking an unsized [![[pic.png]]] inserts [|100]] all the same. *)
Lemma keyboard_step_unmatched_witness :
  (is_grow shrink_key \/ is_shrink shrink_key)
  /\ getLine (editor_at no_mark) (cursor_line (editor_at no_mark)) = Some no_mark
  /\ regex_exec no_mark = None
  /\ no_mark = "![[pic.png" +:+ "]" +:+ "] at noon"
  /\ has_char "]" "![[pic.png" = false
  /\ on_keydown shrink_key (markdown_leaf (editor_at no_mark))
     = markdown_leaf (setLine (editor_at no_mark) (cursor_line (editor_at no_mark))
         ("![[pic.png" +:+ "|100]" +:+ "] at noon")).
Proof.
  split; [right; exact shrink_key_is_shrink|].
  repeat (split; [reflexivity|]).
  apply (keyboard_step_unmatched shrink_key (editor_at no_mark) no_mark
           "![[pic.png" "] at noon").
  - right. exact shrink_key_is_shrink.
  - reflexivity.
  - reflexivity.
  - reflexivity.
  - reflexivity.
Defined.

(** Growing [|0]], the smallest annotation there is. *)
Lemma keyboard_grow_always_rewrites_witness :
  is_grow grow_key
  /\ getLine (editor_at zero_mark) (cursor_line (editor_at zero_mark)) = Some zero_mark
  /\ regex_exec zero_mark = Some ("![[pic.png", "0", "]")
  /\ exists N : number,
       parseInt "0" (Some 10) = N
       /\ nonneg N
       /\ lt (add N (Num 100)) (Num 100) = false
       /\ lt (add N (Num 100)) (Num 50) = false
       /\ on_keydown grow_key (markdown_leaf (editor_at zero_mark)) =
            markdown_leaf
              (setLine (editor_at zero_mark) (cursor_line (editor_at zero_mark))
                 ("![[pic.png" +:+ "|" +:+ toString (add N (Num 100)) +:+ "]" +:+ "]")).
Proof.
  split; [exact grow_key_is_grow | split; [reflexivity | split; [reflexivity|]]].
  apply (keyboard_grow_always_rewrites grow_key (editor_at zero_mark) zero_mark
           "![[pic.png" "0" "]").
  - exact grow_key_is_grow.
  - reflexivity.
  - reflexivity.
Defined.

(** A session on one line: grow twice from no size, then shrink twice; the
    second shrink would give 0, is abandoned, and the line stays at 100. *)
Example keyboard_session :
  cursor_text (on_keydown grow_key (markdown_leaf (editor_at "![[pic.png]]")))
  = Some "![[pic.png|100]]"
  /\ cursor_text (on_keydown grow_key (markdown_leaf (editor_at "![[pic.png|100]]")))
     = Some "![[pic.png|200]]"
  /\ cursor_text (on_keydown shrink_key (markdown_leaf (editor_at "![[pic.png|200]]")))
     = Some "![[pic.png|100]]"
  /\ on_keydown shrink_key (markdown_leaf (editor_at "![[pic.png|100]]"))
     = markdown_leaf (editor_at "![[pic.png|100]]").
Proof. repeat split; vm_compute; reflexivity. Qed.

(** Beyond [2 ^ 53] the widths are rounded, and from [10 ^ 21] on they are
    printed with an exponent. *)
Example keyboard_grow_rounds :
  cursor_text (on_keydown grow_key
    (markdown_leaf (editor_at "![[pic.png|9007199254740993]]")))
  = Some "![[pic.png|9007199254741092]]"
  /\ cursor_text (on_keydown shrink_key
       (markdown_leaf (editor_at "![[pic.png|9007199254740993]]")))
     = Some "![[pic.png|9007199254740892]]"
  /\ cursor_text (on_keydown grow_key
       (markdown_leaf (editor_at "![[pic.png|1000000000000000000000]]")))
     = Some "![[pic.png|1e+21]]"
  /\ cursor_text (on_keydown grow_key
       (markdown_leaf (editor_at "![[pic.png|123456789012345678901234567890]]")))
     = Some "![[pic.png|1.2345678901234568e+29]]".
Proof. repeat split; vm_compute; reflexivity. Qed.

(** A line without closing bracket and without annotation is written
    back as it is. *)
Example keyboard_no_bracket :
  on_keydown grow_key (markdown_leaf (editor_at "plain text"))
  = markdown_leaf (editor_at "plain text").
Proof. vm_compute. reflexivity. Qed.

End KeyboardWitnesses.

(* ================================================================== *)
(** * Printing a number and reading it back *)
(* ================================================================== *)

Section PrintParse.

Lemma string_of_uint_digits (d : Decimal.uint) :
  all_digits (NilEmpty.string_of_uint d) = true.
Proof. induction d; simpl; auto. Qed.

Lemma parse_digits_of_uint_acc (d : Decimal.uint) (acc : positive) :
  parse_digits 10 (Some (Z.pos acc)) (NilEmpty.string_of_uint d)
  = Some (Z.pos (Pos.of_uint_acc d acc)).
Proof.
  revert acc. induction d; intros acc; [reflexivity | ..];
    cbn [NilEmpty.string_of_uint parse_digits Pos.of_uint_acc];
    match goal with
    | |- context [digit_value ?c] =>
        let v := eval vm_compute in (digit_value c) in
        change (digit_value c) with v
    end;
    cbv beta iota; change (_ <? 10) with true; cbv beta iota;
    rewrite <- IHd; f_equal; f_equal; lia.
Qed.

Lemma parse_digits_of_uint (d : Decimal.uint) :
  parse_digits 10 (Some 0) (NilEmpty.string_of_uint d)
  = Some (Z.of_N (Pos.of_uint d)).
Proof.
  induction d; [reflexivity | exact IHd | ..];
    cbn [NilEmpty.string_of_uint parse_digits Pos.of_uint];
    match goal with
    | |- context [digit_value ?c] =>
        let v := eval vm_compute in (digit_value c) in
        change (digit_value c) with v
    end;
    cbv beta iota; change (_ <? 10) with true; cbv beta iota;
    exact (parse_digits_of_uint_acc d _).
Qed.

(** Reading digits from nothing is reading them from zero. *)
Lemma parse_digits_start_zero (s : string) :
  s <> "" -> all_digits s = true ->
  parse_digits 10 None s = parse_digits 10 (Some 0) s.
Proof.
  destruct s as [|c s]; intros Hne Hd; [now destruct Hne|].
  simpl in Hd. apply andb_prop in Hd as [Hc _].
  destruct (digit_value_digit c Hc) as (d & Hv & _ & Hlt).
  apply Z.ltb_lt in Hlt. cbn [parse_digits]. now rewrite Hv, Hlt.
Qed.

Lemma parseInt_of_digits (ds : string) (v : Z) :
  all_digits ds = true -> ds <> "" ->
  parse_digits 10 None ds = Some v ->
  parseInt ds None = double_of_Z v /\ parseInt ds (Some 10) = double_of_Z v.
Proof.
  intros Hd Hne Hv.
  destruct ds as [|c s]; [now destruct Hne|].
  assert (Hc : is_digit c = true) by (simpl in Hd; now apply andb_prop in Hd).
  unfold parseInt.
  rewrite (trim_start_digit c s Hc), (split_sign_digit c s Hc).
  rewrite (strip_hex_prefix_digits _ Hd).
  set (t := String c s) in *. clearbody t. cbn -[double_of_Z Z.mul].
  rewrite Hv, Z.mul_1_l. split; reflexivity.
Qed.

(** The decimal digits of a number above zero: digits only, and they
    read back as the number. *)
Lemma decimal_digits (p : positive) :
  all_digits (decimal (Z.pos p)) = true
  /\ decimal (Z.pos p) <> ""
  /\ parse_digits 10 None (decimal (Z.pos p)) = Some (Z.pos p).
Proof.
  unfold decimal. cbn [Z.to_int NilZero.string_of_int].
  assert (Hs : NilZero.string_of_uint (Pos.to_uint p)
               = NilEmpty.string_of_uint (Pos.to_uint p)).
  { unfold NilZero.string_of_uint.
    pose proof (DecimalPos.Unsigned.to_uint_nonnil p) as Hnil.
    destruct (Pos.to_uint p); [now destruct Hnil | reflexivity ..]. }
  rewrite Hs.
  assert (Hne : NilEmpty.string_of_uint (Pos.to_uint p) <> "").
  { pose proof (DecimalPos.Unsigned.to_uint_nonnil p) as Hnil.
    destruct (Pos.to_uint p); [now destruct Hnil | discriminate ..]. }
  assert (Hd := string_of_uint_digits (Pos.to_uint p)).
  split; [exact Hd | split; [exact Hne|]].
  rewrite (parse_digits_start_zero _ Hne Hd), parse_digits_of_uint.
  now rewrite DecimalPos.Unsigned.of_to.
Qed.

(** The text of a safe integer that is not negative: digits only, and
    [parseInt] reads the number back, with radix 10 and with none. *)
Lemma toString_parseInt (n : Z) :
  0 <= n < 2 ^ 53 ->
  all_digits (toString (Num n)) = true
  /\ toString (Num n) <> ""
  /\ parseInt (toString (Num n)) None = Num n
  /\ parseInt (toString (Num n)) (Some 10) = Num n.
Proof.
  intros Hn. rewrite (toString_safe n Hn).
  destruct n as [|p|p]; [now vm_compute | | lia].
  destruct (decimal_digits p) as (Hd & Hne & Hv).
  split; [exact Hd | split; [exact Hne|]].
  rewrite <- (double_of_Z_exact (Z.pos p)) by lia.
  now apply parseInt_of_digits.
Qed.

End PrintParse.

(* ================================================================== *)
(** * ImageResizePlugin: what a step leaves behind *)
(* ================================================================== *)

Section RegexAgain.

Lemma span_digits_rest (s ds : string) (c : ascii) (r t : string) :
  span_digits s = (ds, String c r) ->
  is_digit c = false /\ span_digits (s +:+ t) = (ds, String c r +:+ t).
Proof.
  revert ds. induction s as [|c' s IH]; intros ds H; simpl in H; [discriminate|].
  destruct (is_digit c') eqn:Hc.
  - destruct (span_digits s) as [ds' r'] eqn:Hs.
    injection H as <- ->. destruct (IH ds' eq_refl) as [Hd Happ].
    split; [exact Hd|]. simpl. now rewrite Hc, Happ.
  - injection H as <- <- <-. split; [exact Hc|]. simpl. now rewrite Hc.
Qed.

Lemma span_digits_all (s ds : string) :
  span_digits s = (ds, "") -> s = ds /\ all_digits s = true.
Proof.
  intros H. destruct (span_digits_sound s ds "" H) as [-> Hd].
  now rewrite app_nil_r.
Qed.

(** A leftmost match, from its parts: the pattern matches at the end of
    [before] and nowhere inside it. *)
Lemma exec_sized_intro (opening closing before rest ds after : string) :
  (forall b1 c b2, before = b1 +:+ String c b2 ->
     match_sized_here opening closing (String c b2 +:+ rest) = None) ->
  match_sized_here opening closing rest = Some (ds, after) ->
  exec_sized opening closing (before +:+ rest) = Some (before, ds, after).
Proof.
  induction before as [|c b IH]; intros Hb Hr.
  - simpl. now rewrite exec_sized_eq, Hr.
  - rewrite exec_sized_eq. rewrite (Hb "" c b eq_refl). simpl.
    rewrite IH; [reflexivity | | exact Hr].
    intros b1 c' b2 ->. now apply (Hb (String c b1) c' b2).
Qed.

(** Before a bar, whether the pattern [|(\d+)\]] matches at a position
    does not depend on what follows the bar. *)
Lemma match_before_bar (c : ascii) (s t1 t2 : string) :
  match_sized_here "|" "]" (String c s +:+ String "|" t1) = None ->
  match_sized_here "|" "]" (String c s +:+ String "|" t2) = None.
Proof.
  unfold match_sized_here. simpl append.
  destruct (String.prefix "|" (String c (s +:+ String "|" t1))) eqn:Hp.
  - assert (Hp2 : String.prefix "|" (String c (s +:+ String "|" t2)) = true).
    { rewrite prefix_cons in *. destruct (ascii_dec "|" c); [|discriminate].
      apply prefix_nil. }
    rewrite Hp2. cbn [String.length drop].
    destruct (span_digits s) as [ds [|c' r]] eqn:Hs.
    + apply span_digits_all in Hs as [<- Hd].
      rewrite !(span_digits_app s) by first [assumption | exact eq_refl].
      destruct s; [easy|]. rewrite !prefix_cons_diff by discriminate. easy.
    + destruct (span_digits_rest s ds c' r (String "|" t1) Hs) as [_ ->].
      destruct (span_digits_rest s ds c' r (String "|" t2) Hs) as [_ ->].
      destruct ds; [easy|]. simpl append. rewrite !prefix_cons.
      destruct (ascii_dec "]" c'); [|easy].
      rewrite !prefix_nil. discriminate.
  - intros _.
    assert (Hp2 : String.prefix "|" (String c (s +:+ String "|" t2)) = false).
    { rewrite prefix_cons in *.
      destruct (ascii_dec "|" c); [|reflexivity].
      rewrite prefix_nil in Hp. discriminate. }
    now rewrite Hp2.
Qed.

(** Inside a text without closing bracket that a bar follows, the pattern
    matches nowhere. *)
Lemma match_without_bracket (c : ascii) (s t : string) :
  has_char "]" (String c s) = false ->
  match_sized_here "|" "]" (String c s +:+ String "|" t) = None.
Proof.
  intros H. simpl in H. apply orb_false_elim in H as [_ Hs].
  unfold match_sized_here. simpl append.
  destruct (String.prefix "|" (String c (s +:+ String "|" t))); [|reflexivity].
  cbn [String.length drop].
  destruct (span_digits s) as [ds [|c' r]] eqn:Hsp.
  - apply span_digits_all in Hsp as [<- Hd].
    rewrite (span_digits_app s) by first [assumption | exact eq_refl].
    destruct s; [reflexivity|]. rewrite prefix_cons_diff by discriminate. reflexivity.
  - destruct (span_digits_rest s ds c' r (String "|" t) Hsp) as [_ ->].
    destruct ds; [reflexivity|]. simpl append.
    rewrite prefix_cons_diff; [reflexivity|].
    intros <-. apply span_digits_sound in Hsp as [-> _].
    rewrite has_char_app in Hs. apply orb_false_elim in Hs as [_ Hs].
    simpl in Hs. discriminate.
Qed.

(** After [|ds]] has been rewritten to other digits, the leftmost match
    is the new annotation, at the same place. *)
Lemma regex_exec_redigit (line before ds after t : string) :
  ImageResize.regex_exec line = Some (before, ds, after) ->
  all_digits t = true -> t <> "" ->
  ImageResize.regex_exec (before +:+ "|" +:+ t +:+ "]" +:+ after)
  = Some (before, t, after).
Proof.
  intros Hm Hd Hne. unfold ImageResize.regex_exec in *.
  apply exec_sized_intro.
  - intros b1 c b2 Hb.
    pose proof (exec_sized_leftmost "|" "]" line before ds after Hm b1 c b2 Hb) as Hl.
    destruct (exec_sized_sound "|" "]" line before ds after Hm) as (Hline & _).
    rewrite Hline, Hb, app_assoc, drop_app in Hl.
    exact (match_before_bar c b2 _ _ Hl).
  - now apply (match_sized_here_complete "|" "]").
Qed.

(** After [|ds]] has been rewritten to [|n]] for a safe integer [n], the
    leftmost match is the new annotation, at the same place. *)
Lemma regex_exec_rewritten (line before ds after : string) (n : Z) :
  ImageResize.regex_exec line = Some (before, ds, after) ->
  0 <= n < 2 ^ 53 ->
  ImageResize.regex_exec (before +:+ "|" +:+ toString (Num n) +:+ "]" +:+ after)
  = Some (before, toString (Num n), after).
Proof.
  intros Hm Hn.
  destruct (toString_parseInt n Hn) as (Hd & Hne & _).
  now apply (regex_exec_redigit line before ds).
Qed.

(** After [|100]] has been put before the first closing bracket, the
    leftmost match is that annotation. *)
Lemma regex_exec_inserted (before after : string) :
  has_char "]" before = false ->
  ImageResize.regex_exec (before +:+ "|100]" +:+ after) = Some (before, "100", after).
Proof.
  intros Hb. unfold ImageResize.regex_exec.
  apply (exec_sized_intro "|" "]" before ("|100]" +:+ after) "100" after).
  - intros b1 c b2 ->. rewrite has_char_app in Hb.
    apply orb_false_elim in Hb as [_ Hb].
    exact (match_without_bracket c b2 _ Hb).
  - now apply (match_sized_here_complete "|" "]" "100" after).
Qed.

End RegexAgain.

Section KeyboardMore.
Import ImageResize.

Lemma getLine_setLine (ed : Editor) (n : nat) (line x : string) :
  getLine ed n = Some line -> getLine (setLine ed n x) n = Some x.
Proof.
  unfold getLine, setLine. cbn [lines]. intros H.
  apply list_lookup_insert_eq. now apply (lookup_lt_Some _ _ line).
Qed.

Lemma setLine_setLine (ed : Editor) (n : nat) (x y : string) :
  setLine (setLine ed n x) n y = setLine ed n y.
Proof. unfold setLine. cbn [lines cursor_line]. now rewrite list_insert_insert_eq. Qed.

Lemma on_keydown_shortcut (evt : KeyboardEvent) (delta : Z) (leaf : option WorkspaceLeaf) :
  (is_grow evt /\ delta = 100) \/ (is_shrink evt /\ delta = -100) ->
  on_keydown evt leaf = resize (Num delta) leaf.
Proof.
  intros [[H ->]|[H ->]]; [now apply keydown_grow | now apply keydown_shrink].
Qed.

(** The value of a match is not negative. *)
Lemma regex_value_nonneg (line before ds after : string) (N : Z) :
  regex_exec line = Some (before, ds, after) ->
  parseInt ds (Some 10) = Num N -> 0 <= N.
Proof.
  intros Hm Hp.
  destruct (exec_sized_sound "|" "]" line before ds after Hm) as (_ & Hne & Hd).
  pose proof (parseInt_digits_nonneg ds Hd Hne) as HN.
  now rewrite Hp in HN.
Qed.

(** The result of [resize] on a Markdown leaf: the editor as it was, or
    with the cursor line set. *)
Lemma resize_shape (scale : number) (ed : Editor) :
  exists ed', resize scale (markdown_leaf ed) = markdown_leaf ed'
    /\ (ed' = ed \/ exists x, ed' = setLine ed (cursor_line ed) x).
Proof.
  unfold resize, markdown_leaf.
  destruct (getLine ed (cursor_line ed)) as [line|]; [|exists ed; now split; [|left]].
  destruct (regex_exec line) as [[[b ds] a]|].
  - destruct (lt (add (parseInt ds (Some 10)) scale) (Num 50)).
    + exists ed. now split; [|left].
    + eexists. split; [reflexivity|]. right. now eexists.
  - eexists. split; [reflexivity|]. right. now eexists.
Qed.

(** X1.  A step that is taken within the safe integers can be read
    back: the cursor line then holds the new width at the place of the
    old one, as its leftmost annotation, and [parseInt] reads the printed
    width back. *)
Theorem keyboard_step_reads_back
    (evt : KeyboardEvent) (delta : Z) (ed : Editor) (line before ds after : string)
    (N : Z) :
  (is_grow evt /\ delta = 100) \/ (is_shrink evt /\ delta = -100) ->
  getLine ed (cursor_line ed) = Some line ->
  regex_exec line = Some (before, ds, after) ->
  parseInt ds (Some 10) = Num N ->
  50 <= N + delta < 2 ^ 53 ->
  add (Num N) (Num delta) = Num (N + delta)
  /\ cursor_text (on_keydown evt (markdown_leaf ed))
     = Some (before +:+ "|" +:+ toString (Num (N + delta)) +:+ "]" +:+ after)
  /\ regex_exec (before +:+ "|" +:+ toString (Num (N + delta)) +:+ "]" +:+ after)
     = Some (before, toString (Num (N + delta)), after)
  /\ parseInt (toString (Num (N + delta))) (Some 10) = Num (N + delta).
Proof.
  intros Hevt Hl Hm Hp Hfloor.
  assert (Hlt : (N + delta <? 50) = false) by (apply Z.ltb_ge; lia).
  assert (Hsafe : Z.abs (N + delta) <= 2 ^ 53) by lia.
  split; [now apply add_exact|]. split; [|split].
  - rewrite (on_keydown_shortcut evt delta _ Hevt).
    rewrite (resize_matched_safe delta N ed line before ds after Hl Hm Hp Hsafe), Hlt.
    unfold markdown_leaf, cursor_text. cbn [cursor_line setLine].
    exact (getLine_setLine ed _ line _ Hl).
  - apply (regex_exec_rewritten line before ds after); [exact Hm | lia].
  - apply toString_parseInt. lia.
Qed.

(** X2.  Grow followed by shrink gives back the width [N] when [N] is at
    least 50; below 50 the shrink is abandoned and the line stays at
    [N + 100].  The width [N + 100] is a safe integer. *)
Theorem keyboard_grow_then_shrink
    (g s : KeyboardEvent) (ed : Editor) (line before ds after : string) (N : Z) :
  is_grow g -> is_shrink s ->
  getLine ed (cursor_line ed) = Some line ->
  regex_exec line = Some (before, ds, after) ->
  parseInt ds (Some 10) = Num N ->
  N + 100 < 2 ^ 53 ->
  on_keydown s (on_keydown g (markdown_leaf ed))
  = markdown_leaf (setLine ed (cursor_line ed)
      (before +:+ "|" +:+ toString (Num (if N <? 50 then N + 100 else N)) +:+ "]"
       +:+ after)).
Proof.
  intros Hg Hs Hl Hm Hp Hsafe.
  pose proof (regex_value_nonneg line before ds after N Hm Hp) as HN.
  rewrite (keydown_grow g _ Hg).
  rewrite (resize_matched_safe 100 N ed line before ds after Hl Hm Hp) by lia.
  replace (N + 100 <? 50) with false by (symmetry; apply Z.ltb_ge; lia).
  rewrite (keydown_shrink s _ Hs).
  set (line1 := before +:+ "|" +:+ toString (Num (N + 100)) +:+ "]" +:+ after).
  assert (Hl1 : getLine (setLine ed (cursor_line ed) line1)
                  (cursor_line (setLine ed (cursor_line ed) line1)) = Some line1)
    by exact (getLine_setLine ed _ line _ Hl).
  assert (Hm1 : regex_exec line1 = Some (before, toString (Num (N + 100)), after))
    by (apply (regex_exec_rewritten line before ds after); [exact Hm | lia]).
  assert (Hp1 : parseInt (toString (Num (N + 100))) (Some 10) = Num (N + 100))
    by (apply toString_parseInt; lia).
  rewrite (resize_matched_safe (-100) (N + 100) _ line1 before _ after Hl1 Hm1 Hp1)
    by lia.
  replace (N + 100 + -100) with N by lia.
  destruct (N <? 50); [reflexivity|].
  cbn [cursor_line setLine lines]. now rewrite setLine_setLine.
Qed.

(** X3.  After a shortcut has put [|100]] into a line without annotation,
    the line holds the annotation 100 as its leftmost one, and a grow that
    follows turns it into [|200]]. *)
Theorem keyboard_default_reads_back
    (evt g : KeyboardEvent) (ed : Editor) (line before after : string) :
  is_grow evt \/ is_shrink evt ->
  is_grow g ->
  getLine ed (cursor_line ed) = Some line ->
  regex_exec line = None ->
  line = before +:+ "]" +:+ after ->
  has_char "]" before = false ->
  regex_exec (before +:+ "|100]" +:+ after) = Some (before, "100", after)
  /\ on_keydown g (on_keydown evt (markdown_leaf ed))
     = markdown_leaf (setLine ed (cursor_line ed) (before +:+ "|200]" +:+ after)).
Proof.
  intros Hevt Hg Hl Hm Hline Hb.
  pose proof (regex_exec_inserted before after Hb) as Hm1.
  split; [exact Hm1|].
  assert (H1 : on_keydown evt (markdown_leaf ed)
               = markdown_leaf (setLine ed (cursor_line ed) (before +:+ "|100]" +:+ after))).
  { rewrite <- (replace_bracket_first before after Hb), <- Hline.
    destruct Hevt as [H|H].
    - rewrite (keydown_grow evt _ H). now apply resize_unmatched.
    - rewrite (keydown_shrink evt _ H). now apply resize_unmatched. }
  rewrite H1, (keydown_grow g _ Hg).
  set (line1 := before +:+ "|100]" +:+ after) in *.
  assert (Hl1 : getLine (setLine ed (cursor_line ed) line1)
                  (cursor_line (setLine ed (cursor_line ed) line1)) = Some line1)
    by exact (getLine_setLine ed _ line _ Hl).
  assert (Hp1 : parseInt "100" (Some 10) = Num 100) by (vm_compute; reflexivity).
  assert (Ht : toString (Num (100 + 100)) = "200") by (vm_compute; reflexivity).
  rewrite (resize_matched_safe 100 100 _ line1 before "100" after Hl1 Hm1 Hp1) by lia.
  rewrite Ht.
  cbn [cursor_line setLine lines Z.add Z.ltb Z.compare Pos.compare Pos.compare_cont Pos.add].
  now rewrite setLine_setLine.
Qed.

(** X4.  A key press changes nothing but the cursor line: the cursor, the
    number of lines and every other line stay, and a leaf that shows no
    Markdown editor is left as it is. *)
Theorem keyboard_frame (evt : KeyboardEvent) :
  (forall ed, exists ed',
      on_keydown evt (markdown_leaf ed) = markdown_leaf ed'
      /\ cursor_line ed' = cursor_line ed
      /\ length (lines ed') = length (lines ed)
      /\ forall i, i <> cursor_line ed -> lines ed' !! i = lines ed !! i)
  /\ on_keydown evt None = None
  /\ on_keydown evt (Some {| view := None |}) = Some {| view := None |}
  /\ on_keydown evt (Some {| view := Some OtherView |}) = Some {| view := Some OtherView |}.
Proof.
  split.
  - intros ed.
    assert (Hshape : exists ed', on_keydown evt (markdown_leaf ed) = markdown_leaf ed'
              /\ (ed' = ed \/ exists x, ed' = setLine ed (cursor_line ed) x)).
    { unfold on_keydown.
      destruct (ctrlKey evt && shiftKey evt && _); [apply resize_shape|].
      destruct (ctrlKey evt && shiftKey evt && _); [apply resize_shape|].
      exists ed. split; [reflexivity | now left]. }
    destruct Hshape as (ed' & Hk & [->|[x ->]]).
    + exists ed. split; [exact Hk|]. now repeat split.
    + exists (setLine ed (cursor_line ed) x). split; [exact Hk|].
      unfold setLine. cbn [cursor_line lines].
      split; [reflexivity | split; [apply length_insert|]].
      intros i Hi. now apply list_lookup_insert_ne.
  - unfold on_keydown.
    repeat split; repeat (destruct (ctrlKey evt && shiftKey evt && _)); reflexivity.
Qed.


End KeyboardMore.

(* ================================================================== *)
(** * MouseWheelZoomPlugin: the key state and the event stream *)
(* ================================================================== *)

Section KeyState.
Import MouseWheelZoom.

Variable U : Util.

Lemma run_cons (ev : DomEvent) (evs : list DomEvent) (st : Plugin * World) :
  run U (ev :: evs) st = run U evs (dispatch U ev st).
Proof. reflexivity. Qed.

(** One event keeps the settings, and keeps scrolling blocked exactly
    while the key counts as held. *)
Lemma dispatch_key_state (ev : DomEvent) (p : Plugin) (w : World) :
  isKeyHeldDown p = scrollDisabled p ->
  isKeyHeldDown (fst (dispatch U ev (p, w))) = scrollDisabled (fst (dispatch U ev (p, w)))
  /\ settings (fst (dispatch U ev (p, w))) = settings p.
Proof.
  intros Hinv. destruct ev as [evt|evt|h evt]; cbn [dispatch fst snd].
  - unfold on_keydown. destruct (String.eqb _ _); cbn; split; auto.
  - unfold on_keyup. destruct (String.eqb _ _); cbn; split; auto.
  - unfold on_wheel.
    destruct (isKeyHeldDown p) eqn:Hheld; [|cbn [fst]; rewrite Hheld; split; auto].
    destruct (negb (isConfiguredKeyDown p evt)); [cbn; split; auto|].
    destruct (String.eqb _ _); cbn [fst]; rewrite ?Hheld; split; auto.
Qed.

(** While the key does not count as held, an event other than a press of
    the configured key keeps it so and leaves the vault alone. *)
Lemma dispatch_idle (ev : DomEvent) (p : Plugin) (w : World) :
  isKeyHeldDown p = false ->
  presses_modifier p ev = false ->
  isKeyHeldDown (fst (dispatch U ev (p, w))) = false
  /\ settings (fst (dispatch U ev (p, w))) = settings p
  /\ snd (dispatch U ev (p, w)) = w.
Proof.
  intros Hidle Hev. destruct ev as [evt|evt|h evt]; cbn [dispatch fst snd].
  - unfold on_keydown. cbn [presses_modifier] in Hev. rewrite Hev. repeat split; auto.
  - unfold on_keyup. destruct (String.eqb _ _); cbn; repeat split; auto.
  - unfold on_wheel. rewrite Hidle. repeat split; auto.
Qed.

Lemma presses_modifier_settings (p p' : Plugin) (ev : DomEvent) :
  settings p' = settings p -> presses_modifier p' ev = presses_modifier p ev.
Proof. intros H. destruct ev; cbn [presses_modifier]; now rewrite ?H. Qed.

(** X6.  Over any stream of key and wheel events the settings stay as they
    are, and scrolling is blocked exactly while the key counts as held,
    when that is so at the start. *)
Theorem scroll_follows_key (evs : list DomEvent) (p : Plugin) (w : World) :
  isKeyHeldDown p = scrollDisabled p ->
  isKeyHeldDown (fst (run U evs (p, w))) = scrollDisabled (fst (run U evs (p, w)))
  /\ settings (fst (run U evs (p, w))) = settings p.
Proof.
  revert p w. induction evs as [|ev evs IH]; intros p w Hinv; [now split|].
  rewrite run_cons.
  destruct (dispatch_key_state ev p w Hinv) as [Hinv' Hset].
  destruct (dispatch U ev (p, w)) as [p' w'] eqn:E. cbn [fst] in *.
  destruct (IH p' w' Hinv') as [H1 H2]. split; [exact H1 | congruence].
Qed.

(** X7.  Without a press of the configured key no wheel event reaches the
    vault: from a state where the key does not count as held, a stream
    without such a press leaves the files and the log of calls as they
    were. *)
Theorem no_zoom_without_modifier (evs : list DomEvent) (p : Plugin) (w : World) :
  isKeyHeldDown p = false ->
  Forall (fun ev => presses_modifier p ev = false) evs ->
  snd (run U evs (p, w)) = w
  /\ isKeyHeldDown (fst (run U evs (p, w))) = false.
Proof.
  revert p w. induction evs as [|ev evs IH]; intros p w Hidle Hevs; [now split|].
  rewrite run_cons. inversion Hevs as [|? ? Hev Hrest]; subst.
  destruct (dispatch_idle ev p w Hidle Hev) as (Hidle' & Hset & Hw).
  destruct (dispatch U ev (p, w)) as [p' w'] eqn:E. cbn [fst snd] in *. subst w'.
  apply IH; [exact Hidle'|].
  eapply Forall_impl; [exact Hrest|].
  intros ev' H. now rewrite (presses_modifier_settings p p' ev' Hset).
Qed.

(** X8.  Pressing and releasing one key brings an idle plugin back to
    where it was, whether the key is the configured one or not. *)
Theorem press_release_round_trip (evt : KeyboardEvent) (p : Plugin) :
  isKeyHeldDown p = false ->
  scrollDisabled p = false ->
  on_keyup evt (on_keydown evt p) = p.
Proof.
  intros Hheld Hscroll. destruct p as [s held scroll]. cbn in Hheld, Hscroll. subst.
  unfold on_keydown. cbn [settings].
  destruct (String.eqb (code evt) (ModifierKey_toString (modifierKey s))) eqn:E;
    unfold on_keyup; cbn [disableScroll settings]; rewrite E; reflexivity.
Qed.

End KeyState.

(* ================================================================== *)
(** * MouseWheelZoomPlugin: the owning pane and the files *)
(* ================================================================== *)

Section OwningPane.
Import MouseWheelZoom.

Lemma find_first (A : Type) (f : A -> bool) (l1 l2 : list A) (x : A) :
  Forall (fun y => f y = false) l1 -> f x = true ->
  List.find f (l1 ++ x :: l2)%list = Some x.
Proof.
  intros H1 Hx. induction H1 as [|y l Hy _ IH]; simpl.
  - now rewrite Hx.
  - now rewrite Hy.
Qed.

Lemma find_none (A : Type) (f : A -> bool) (l : list A) :
  Forall (fun y => f y = false) l -> List.find f l = None.
Proof. intros H. induction H as [|y l Hy _ IH]; simpl; [reflexivity | now rewrite Hy]. Qed.

Lemma getActivePaneWithImage_find (h : Host) (el : Element) :
  getActivePaneWithImage h el =
  match List.find (hosts_image el) (leaves h) with
  | Some leaf => inr (view_file leaf)
  | None => inl (Error "No file belonging to the image found")
  end.
Proof. reflexivity. Qed.

(** X9.  The owning file is the file of the first pane, in the order of
    the workspace, that holds the image in a Markdown view; panes of other
    kinds and panes without the image are passed over, and later panes are
    not looked at. *)
Theorem first_markdown_pane_owns (h : Host) (el : Element)
    (l1 l2 : list Leaf) (leaf : Leaf) :
  leaves h = (l1 ++ leaf :: l2)%list ->
  Forall (fun l => hosts_image el l = false) l1 ->
  hosts_image el leaf = true ->
  getActivePaneWithImage h el = inr (view_file leaf).
Proof.
  intros Hl H1 Hx. rewrite getActivePaneWithImage_find, Hl.
  now rewrite (find_first Leaf (hosts_image el) l1 l2 leaf H1 Hx).
Qed.

Variable U : Util.

(** X10.  [handleZoom] gives up before it reads anything when the image
    has no [src] attribute (a [TypeError]) and when no Markdown pane holds
    the image (the error of [getActivePaneWithImage]): the vault and the
    log of calls are untouched. *)
Theorem zoom_fails_before_reading (h : Host) (s : MouseWheelZoomSettings)
    (evt : WheelEvent) (el : Element) (w : World) :
  (attr_src el = None -> handleZoom U h s evt el w = (inl TypeError, w))
  /\ (forall uri, attr_src el = Some uri ->
        Forall (fun l => hosts_image el l = false) (leaves h) ->
        handleZoom U h s evt el w
        = (inl (Error "No file belonging to the image found"), w)).
Proof.
  split.
  - intros Hsrc. unfold handleZoom, bind, lift. now rewrite Hsrc.
  - intros uri Hsrc Hnone. unfold handleZoom, bind, lift.
    rewrite Hsrc. cbn [attr_textContent].
    rewrite getActivePaneWithImage_find.
    now rewrite (find_none Leaf (hosts_image el) (leaves h) Hnone).
Qed.

(** Every way the wheel handler can end, with the file it works on. *)
Lemma on_wheel_world (h : Host) (evt : WheelEvent) (p : Plugin) (w : World) :
  world_after U h evt p w = w
  \/ exists file text,
       getActivePaneWithImage h (target evt) = inr file
       /\ (world_after U h evt p w = after_read w file
           \/ exists data, files w !! file = Some text
                /\ world_after U h evt p w = after_modify (after_read w file) file data).
Proof.
  unfold world_after, on_wheel.
  destruct (isKeyHeldDown p); [|now left].
  destruct (negb (isConfiguredKeyDown p evt)); [now left|].
  destruct (String.eqb (nodeName (target evt)) "IMG"); [|now left].
  cbn [snd]. unfold handleZoom, bind, lift, vault_read.
  destruct (attr_src (target evt)) as [uri|]; cbn [attr_textContent]; [|now left].
  destruct (getActivePaneWithImage h (target evt)) as [e|file]; cbv beta iota; [now left|].
  right.
  destruct (files w !! file) as [text|] eqn:Hfile; cbv beta iota.
  - exists file, text. split; [reflexivity|].
    destruct (getZoomParams U uri text (target evt)) as [e|zp]; cbv beta iota zeta;
      [now left|].
    destruct (String.eqb _ text); [now left|].
    right. now eexists.
  - exists file, "". split; [reflexivity | now left].
Qed.

(** X11.  A wheel event creates no file and removes none, and leaves the
    text of every file but the owning one as it was. *)
Theorem wheel_touches_one_file (h : Host) (evt : WheelEvent) (p : Plugin) (w : World) :
  dom (files (world_after U h evt p w)) = dom (files w)
  /\ forall f, getActivePaneWithImage h (target evt) <> inr f ->
       files (world_after U h evt p w) !! f = files w !! f.
Proof.
  destruct (on_wheel_world h evt p w) as [->|(file & text & Hpane & [->|(data & Hfile & ->)])].
  - now split.
  - now split.
  - cbn [after_modify after_read files]. split.
    + apply dom_insert_lookup_L. now rewrite Hfile.
    + intros f Hf. apply lookup_insert_ne. intros <-. now destruct Hf.
Qed.

(** X12.  A drawing without [filesource] attribute: [getZoomParams] ends in
    a [TypeError], not in the error for images that are not zoomable, and
    [handleZoom] has then read the file and written nothing. *)
Theorem drawing_without_filesource (uri text : string) (el : Element) :
  contains uri "http" = false ->
  contains uri "app://" = false ->
  match_excalidraw (classList_value el) = true ->
  attr_filesource el = None ->
  getZoomParams U uri text el = inl TypeError
  /\ forall h s evt w file,
       attr_src el = Some uri ->
       getActivePaneWithImage h el = inr file ->
       files w !! file = Some text ->
       handleZoom U h s evt el w = (inl TypeError, after_read w file).
Proof.
  intros H1 H2 H3 Hfs.
  assert (Hz : getZoomParams U uri text el = inl TypeError)
    by (unfold getZoomParams; now rewrite H1, H2, H3, Hfs).
  split; [exact Hz|].
  intros h s evt w file Hsrc Hpane Hfile.
  exact (handleZoom_unresolved U h s evt el w uri file text TypeError Hsrc Hpane Hfile Hz).
Qed.

End OwningPane.

(* ================================================================== *)
(** * MouseWheelZoomPlugin: sizes, drawing names, settings *)
(* ================================================================== *)

Section SizesAndNames.
Import MouseWheelZoom.

(** X13.  With a step that is not negative, a positive size stays positive
    under every wheel event, whatever its [deltaY]: the new size is a
    number above zero or [Infinity], and it is a number above zero
    whenever size and step together stay below [2 ^ 1023]. *)
Theorem zoom_keeps_size_positive (s : MouseWheelZoomSettings) (evt : WheelEvent) (V S : Z) :
  stepSize s = Num S -> 0 <= S -> 0 < V ->
  above_zero (zoomedSize s evt (Num V))
  /\ (V + S < 2 ^ 1023 -> exists V', zoomedSize s evt (Num V) = Num V' /\ 0 < V').
Proof.
  intros HS HS0 HV. unfold zoomedSize. rewrite HS. cbv zeta.
  destruct (lt (deltaY evt) (Num 0)).
  - cbn [add]. split; [apply double_of_Z_positive; lia|].
    intros Hb. destruct (double_of_Z_finite (V + S)) as (m & -> & Hm); [lia|].
    exists m. split; [reflexivity | lia].
  - destruct (gt (deltaY evt) (Num 0)); cbn [andb];
      [|split; [exact HV | intros _; exists V; now split]].
    unfold gt. cbn [lt].
    destruct (S <? V) eqn:E; [|split; [exact HV | intros _; exists V; now split]].
    apply Z.ltb_lt in E. unfold sub. cbn [neg add].
    split; [apply double_of_Z_positive; lia|].
    intros Hb. destruct (double_of_Z_finite (V + - S)) as (m & -> & Hm); [lia|].
    exists m. split; [reflexivity | lia].
Qed.

(** X14.  With size and step together a safe integer, zooming in and then
    out gives back a positive size; zooming out and then in gives it back
    only when the size is above the step, and adds a step otherwise. *)
Theorem zoom_in_out (s : MouseWheelZoomSettings) (e_in e_out : WheelEvent)
    (V S d_in d_out : Z) :
  stepSize s = Num S -> 0 <= S -> 0 < V -> V + S <= 2 ^ 53 ->
  deltaY e_in = Num d_in -> d_in < 0 ->
  deltaY e_out = Num d_out -> 0 < d_out ->
  zoomedSize s e_out (zoomedSize s e_in (Num V)) = Num V
  /\ zoomedSize s e_in (zoomedSize s e_out (Num V))
     = Num (if S <? V then V else V + S).
Proof.
  intros HS HS0 HV Hsafe Hin Hdin Hout Hdout.
  unfold zoomedSize, gt. rewrite HS, Hin, Hout. cbv zeta. cbn [lt].
  assert (H1 : (d_in <? 0) = true) by (apply Z.ltb_lt; lia).
  assert (H2 : (d_out <? 0) = false) by (apply Z.ltb_ge; lia).
  assert (H3 : (0 <? d_out) = true) by (apply Z.ltb_lt; lia).
  rewrite H1, H2, H3. cbn [andb]. split.
  - rewrite (add_exact V S) by lia. cbn [lt].
    assert (H4 : (S <? V + S) = true) by (apply Z.ltb_lt; lia).
    rewrite H4, (sub_exact (V + S) S) by lia. f_equal. lia.
  - destruct (S <? V) eqn:E.
    + apply Z.ltb_lt in E. rewrite (sub_exact V S) by lia.
      rewrite (add_exact (V - S) S) by lia. f_equal. lia.
    + now rewrite (add_exact V S) by lia.
Qed.

Lemma split_tail (n : nat) (s : string) :
  (n <= String.length s)%nat ->
  exists a b, s = a +:+ b /\ String.length b = n.
Proof.
  induction s as [|c s IH]; intros Hn.
  - exists "", "". simpl in *. split; [reflexivity | lia].
  - destruct (Nat.eq_dec n (String.length (String c s))) as [->|Hne].
    + now exists "", (String c s).
    + destruct IH as (a & b & -> & Hb); [simpl in *; lia|].
      now exists (String c a), b.
Qed.

Lemma substring_short (src : string) :
  (String.length src <= 3)%nat ->
  substring src 0 (Some (Z.of_nat (String.length src) - 3)) = "".
Proof.
  intros H. unfold substring.
  replace (Z.min (Z.max (Z.of_nat (String.length src) - 3) 0) (Z.of_nat (String.length src)))
    with 0 by lia.
  replace (Z.min (Z.max 0 0) (Z.of_nat (String.length src))) with 0 by lia.
  cbn. now destruct src.
Qed.

Variable U : Util.

(** X15.  Whatever the [filesource] of a drawing is, [getZoomParams]
    resolves it, the name it hands on holds no slash, and a [filesource]
    of three code units or fewer gives the empty name. *)
Theorem drawing_name_total (uri text : string) (el : Element) (src : string) :
  contains uri "http" = false ->
  contains uri "app://" = false ->
  match_excalidraw (classList_value el) = true ->
  attr_filesource el = Some src ->
  exists name,
    getZoomParams U uri text el = inr (getLocalImageZoomParams U name text)
    /\ has_char "/" name = false
    /\ ((String.length src <= 3)%nat -> name = "").
Proof.
  intros H1 H2 H3 Hsrc.
  unfold getZoomParams. rewrite H1, H2, H3, Hsrc. cbn [attr_textContent].
  destruct (le_lt_dec (String.length src) 3) as [Hshort|Hlong].
  - rewrite (substring_short src Hshort). exists "". now repeat split.
  - destruct (split_tail 3 src) as (body & ext & -> & Hext); [lia|].
    rewrite (substring_strip3 body ext Hext).
    rewrite length_app, Hext in Hlong.
    destruct (last_char_split "/" body) as [Hno|(dir & name & -> & Hname)].
    + exists body. rewrite (substring_no_slash body Hno).
      split; [reflexivity | split; [exact Hno|]].
      intros Hle. rewrite length_app, Hext in Hle. lia.
    + exists name. rewrite (substring_after_last_slash dir name Hname).
      split; [reflexivity | split; [exact Hname|]].
      intros Hle. rewrite length_app, Hext in Hle. lia.
Qed.

(** X16.  [loadSettings]: without saved data the settings are the
    defaults; every saved property wins over its default and every
    property that is not saved keeps it; and saved data that holds the
    three settings is loaded back as it is. *)
Theorem loadSettings_defaults (s : MouseWheelZoomSettings) :
  loadSettings None = settings_object DEFAULT_SETTINGS
  /\ (forall data k,
        loadSettings (Some data) !! k =
        match data !! k with
        | Some v => Some v
        | None => settings_object DEFAULT_SETTINGS !! k
        end)
  /\ loadSettings (Some (settings_object s)) = settings_object s.
Proof.
  assert (Hlookup : forall data k,
            loadSettings (Some data) !! k =
            match data !! k with
            | Some v => Some v
            | None => settings_object DEFAULT_SETTINGS !! k
            end).
  { intros data k. unfold loadSettings, Object_assign. cbn [fold_left].
    rewrite (right_id_L ∅ (∪) (settings_object DEFAULT_SETTINGS)).
    rewrite lookup_union. destruct (data !! k); [|now rewrite (left_id None _)].
    now destruct (settings_object DEFAULT_SETTINGS !! k). }
  split; [|split; [exact Hlookup|]].
  - unfold loadSettings, Object_assign. cbn [fold_left].
    apply (right_id_L ∅ (∪)).
  - apply map_eq. intros k. rewrite Hlookup.
    unfold settings_object. rewrite !lookup_insert, !lookup_empty.
    repeat case_decide; reflexivity.
Qed.

End SizesAndNames.

(* ================================================================== *)
(** * The further properties at sample inputs *)
(* ================================================================== *)

Section MoreWitnesses.
Import MouseWheelZoom Samples.

(** Shrinking [|150]]: the line then reads [|50]]. *)
Lemma keyboard_step_reads_back_witness :
  ((ImageResize.is_grow shrink_key /\ -100 = 100)
   \/ (ImageResize.is_shrink shrink_key /\ -100 = -100))
  /\ ImageResize.getLine (editor_at two_marks)
       (ImageResize.cursor_line (editor_at two_marks)) = Some two_marks
  /\ ImageResize.regex_exec two_marks = Some ("![[pic.png", "150", "] and |7] too")
  /\ parseInt "150" (Some 10) = Num 150
  /\ 50 <= 150 + -100 < 2 ^ 53
  /\ add (Num 150) (Num (-100)) = Num (150 + -100)
  /\ ImageResize.cursor_text
       (ImageResize.on_keydown shrink_key (ImageResize.markdown_leaf (editor_at two_marks)))
     = Some ("![[pic.png" +:+ "|" +:+ toString (Num (150 + -100)) +:+ "]"
             +:+ "] and |7] too")
  /\ ImageResize.regex_exec
       ("![[pic.png" +:+ "|" +:+ toString (Num (150 + -100)) +:+ "]" +:+ "] and |7] too")
     = Some ("![[pic.png", toString (Num (150 + -100)), "] and |7] too")
  /\ parseInt (toString (Num (150 + -100))) (Some 10) = Num (150 + -100).
Proof.
  assert (Hp : parseInt "150" (Some 10) = Num 150) by (vm_compute; reflexivity).
  split; [right; split; [exact shrink_key_is_shrink | reflexivity]|].
  split; [reflexivity | split; [reflexivity | split; [exact Hp | split; [lia|]]]].
  apply (keyboard_step_reads_back shrink_key (-100) (editor_at two_marks) two_marks
           "![[pic.png" "150" "] and |7] too" 150).
  - right. split; [exact shrink_key_is_shrink | reflexivity].
  - reflexivity.
  - reflexivity.
  - exact Hp.
  - lia.
Defined.

(** Grow then shrink on [|10]]: the shrink is abandoned at 110. *)
Lemma keyboard_grow_then_shrink_witness :
  ImageResize.is_grow grow_key
  /\ ImageResize.is_shrink shrink_key
  /\ ImageResize.getLine (editor_at small_mark)
       (ImageResize.cursor_line (editor_at small_mark)) = Some small_mark
  /\ ImageResize.regex_exec small_mark = Some ("![[pic.png", "10", "]")
  /\ parseInt "10" (Some 10) = Num 10
  /\ 10 + 100 < 2 ^ 53
  /\ ImageResize.on_keydown shrink_key
       (ImageResize.on_keydown grow_key (ImageResize.markdown_leaf (editor_at small_mark)))
     = ImageResize.markdown_leaf
         (ImageResize.setLine (editor_at small_mark)
            (ImageResize.cursor_line (editor_at small_mark))
            ("![[pic.png" +:+ "|" +:+ toString (Num (if 10 <? 50 then 10 + 100 else 10))
             +:+ "]" +:+ "]")).
Proof.
  assert (Hp : parseInt "10" (Some 10) = Num 10) by (vm_compute; reflexivity).
  assert (Hs : 10 + 100 < 2 ^ 53) by lia.
  split; [exact grow_key_is_grow | split; [exact shrink_key_is_shrink|]].
  split; [reflexivity | split; [reflexivity | split; [exact Hp | split; [exact Hs|]]]].
  exact (keyboard_grow_then_shrink grow_key shrink_key (editor_at small_mark) small_mark
           "![[pic.png" "10" "]" 10 grow_key_is_grow shrink_key_is_shrink
           eq_refl eq_refl Hp Hs).
Defined.

(** Shrink on an unsized line, then grow: [|100]], then [|200]]. *)
Lemma keyboard_default_reads_back_witness :
  (ImageResize.is_grow shrink_key \/ ImageResize.is_shrink shrink_key)
  /\ ImageResize.is_grow grow_key
  /\ ImageResize.getLine (editor_at no_mark)
       (ImageResize.cursor_line (editor_at no_mark)) = Some no_mark
  /\ ImageResize.regex_exec no_mark = None
  /\ no_mark = "![[pic.png" +:+ "]" +:+ "] at noon"
  /\ has_char "]" "![[pic.png" = false
  /\ ImageResize.regex_exec ("![[pic.png" +:+ "|100]" +:+ "] at noon")
     = Some ("![[pic.png", "100", "] at noon")
  /\ ImageResize.on_keydown grow_key
       (ImageResize.on_keydown shrink_key (ImageResize.markdown_leaf (editor_at no_mark)))
     = ImageResize.markdown_leaf
         (ImageResize.setLine (editor_at no_mark)
            (ImageResize.cursor_line (editor_at no_mark))
            ("![[pic.png" +:+ "|200]" +:+ "] at noon")).
Proof.
  split; [right; exact shrink_key_is_shrink | split; [exact grow_key_is_grow|]].
  do 4 (split; [reflexivity|]).
  exact (keyboard_default_reads_back shrink_key grow_key (editor_at no_mark) no_mark
           "![[pic.png" "] at noon" (or_intror shrink_key_is_shrink) grow_key_is_grow
           eq_refl eq_refl eq_refl eq_refl).
Defined.



(** The stream with the lost key release. *)
Lemma scroll_follows_key_witness :
  isKeyHeldDown loaded = scrollDisabled loaded
  /\ isKeyHeldDown (fst (run U stuck_stream (loaded, vault unsized_note)))
     = scrollDisabled (fst (run U stuck_stream (loaded, vault unsized_note)))
  /\ settings (fst (run U stuck_stream (loaded, vault unsized_note))) = settings loaded.
Proof.
  split; [reflexivity|].
  apply (scroll_follows_key U stuck_stream loaded (vault unsized_note)). reflexivity.
Defined.

(** Wheel events and other keys, but no press of Alt. *)
Lemma no_zoom_without_modifier_witness :
  isKeyHeldDown loaded = false
  /\ Forall (fun ev => presses_modifier loaded ev = false) idle_stream
  /\ snd (run U idle_stream (loaded, vault unsized_note)) = vault unsized_note
  /\ isKeyHeldDown (fst (run U idle_stream (loaded, vault unsized_note))) = false.
Proof.
  assert (Hevs : Forall (fun ev => presses_modifier loaded ev = false) idle_stream)
    by (repeat constructor).
  split; [reflexivity | split; [exact Hevs|]].
  exact (no_zoom_without_modifier U idle_stream loaded (vault unsized_note) eq_refl Hevs).
Defined.

(** Alt down and up again. *)
Lemma press_release_round_trip_witness :
  isKeyHeldDown loaded = false
  /\ scrollDisabled loaded = false
  /\ on_keyup {| code := "AltLeft" |} (on_keydown {| code := "AltLeft" |} loaded) = loaded.
Proof.
  split; [reflexivity | split; [reflexivity|]].
  apply (press_release_round_trip {| code := "AltLeft" |} loaded); reflexivity.
Defined.

(** A canvas pane in front of two Markdown panes: the first Markdown pane
    owns the image. *)
Lemma first_markdown_pane_owns_witness :
  leaves crowded_host = ([canvas_pane] ++ pane :: [other_pane])%list
  /\ Forall (fun l => hosts_image picture l = false) [canvas_pane]
  /\ hosts_image picture pane = true
  /\ getActivePaneWithImage crowded_host picture = inr (view_file pane).
Proof.
  assert (H1 : Forall (fun l => hosts_image picture l = false) [canvas_pane])
    by (repeat constructor).
  split; [reflexivity | split; [exact H1 | split; [reflexivity|]]].
  exact (first_markdown_pane_owns crowded_host picture [canvas_pane] [other_pane] pane
           eq_refl H1 eq_refl).
Defined.

(** An image without [src], and an image that only a canvas pane holds. *)
Lemma zoom_fails_before_reading_witness :
  handleZoom U (host 300) DEFAULT_SETTINGS (wheel 3 srcless_picture) srcless_picture
    (vault sized_note)
  = (inl TypeError, vault sized_note)
  /\ handleZoom U canvas_host DEFAULT_SETTINGS (wheel 3 picture) picture (vault sized_note)
     = (inl (Error "No file belonging to the image found"), vault sized_note).
Proof.
  split.
  - exact (proj1 (zoom_fails_before_reading U (host 300) DEFAULT_SETTINGS
                    (wheel 3 srcless_picture) srcless_picture (vault sized_note))
             eq_refl).
  - apply (proj2 (zoom_fails_before_reading U canvas_host DEFAULT_SETTINGS
                    (wheel 3 picture) picture (vault sized_note)) pic_uri eq_refl).
    repeat constructor.
Defined.

(** Zooming the picture of one note leaves the other note alone. *)
Lemma wheel_touches_one_file_witness :
  getActivePaneWithImage (host 800) (target (wheel (-3) picture)) <> inr "Notes/other.md"
  /\ dom (files (world_after U (host 800) (wheel (-3) picture) held two_notes))
     = dom (files two_notes)
  /\ files (world_after U (host 800) (wheel (-3) picture) held two_notes) !! "Notes/other.md"
     = files two_notes !! "Notes/other.md".
Proof.
  assert (Hne : getActivePaneWithImage (host 800) (target (wheel (-3) picture))
                <> inr "Notes/other.md")
    by (intros H; vm_compute in H; discriminate H).
  split; [exact Hne | split].
  - exact (proj1 (wheel_touches_one_file U (host 800) (wheel (-3) picture) held two_notes)).
  - exact (proj2 (wheel_touches_one_file U (host 800) (wheel (-3) picture) held two_notes)
             "Notes/other.md" Hne).
Defined.

(** A drawing element that has lost its [filesource]. *)
Lemma drawing_without_filesource_witness :
  contains drawing_uri "http" = false
  /\ contains drawing_uri "app://" = false
  /\ match_excalidraw (classList_value bare_drawing) = true
  /\ attr_filesource bare_drawing = None
  /\ getZoomParams U drawing_uri sized_note bare_drawing = inl TypeError
  /\ handleZoom U (host 300) DEFAULT_SETTINGS (wheel 3 bare_drawing) bare_drawing
       (vault sized_note)
     = (inl TypeError, after_read (vault sized_note) note).
Proof.
  do 4 (split; [reflexivity|]).
  split.
  - exact (proj1 (drawing_without_filesource U drawing_uri sized_note bare_drawing
                    eq_refl eq_refl eq_refl eq_refl)).
  - apply (proj2 (drawing_without_filesource U drawing_uri sized_note bare_drawing
                    eq_refl eq_refl eq_refl eq_refl)).
    + reflexivity.
    + reflexivity.
    + unfold vault. cbn [files]. apply lookup_singleton_eq.
Defined.

(** Size 26 with step 25. *)
Lemma zoom_keeps_size_positive_witness :
  stepSize DEFAULT_SETTINGS = Num 25
  /\ 0 <= 25
  /\ 0 < 26
  /\ above_zero (zoomedSize DEFAULT_SETTINGS (wheel 3 picture) (Num 26))
  /\ (26 + 25 < 2 ^ 1023 ->
      exists V', zoomedSize DEFAULT_SETTINGS (wheel 3 picture) (Num 26) = Num V' /\ 0 < V').
Proof.
  split; [reflexivity | split; [lia | split; [lia|]]].
  apply (zoom_keeps_size_positive DEFAULT_SETTINGS (wheel 3 picture) 26 25);
    [reflexivity | lia | lia].
Defined.

(** Size 20 with step 25: in and out gives 20, out and in gives 45. *)
Lemma zoom_in_out_witness :
  stepSize DEFAULT_SETTINGS = Num 25
  /\ 0 <= 25 /\ 0 < 20 /\ 20 + 25 <= 2 ^ 53
  /\ deltaY (wheel (-3) picture) = Num (-3) /\ -3 < 0
  /\ deltaY (wheel 3 picture) = Num 3 /\ 0 < 3
  /\ zoomedSize DEFAULT_SETTINGS (wheel 3 picture)
       (zoomedSize DEFAULT_SETTINGS (wheel (-3) picture) (Num 20)) = Num 20
  /\ zoomedSize DEFAULT_SETTINGS (wheel (-3) picture)
       (zoomedSize DEFAULT_SETTINGS (wheel 3 picture) (Num 20))
     = Num (if 25 <? 20 then 20 else 20 + 25).
Proof.
  split; [reflexivity | split; [lia | split; [lia | split; [lia|]]]].
  split; [reflexivity | split; [lia | split; [reflexivity | split; [lia|]]]].
  apply (zoom_in_out DEFAULT_SETTINGS (wheel (-3) picture) (wheel 3 picture) 20 25 (-3) 3);
    first [reflexivity | lia].
Defined.

(** A [filesource] of one code unit. *)
Lemma drawing_name_total_witness :
  contains drawing_uri "http" = false
  /\ contains drawing_uri "app://" = false
  /\ match_excalidraw (classList_value (drawing "x")) = true
  /\ attr_filesource (drawing "x") = Some "x"
  /\ exists name,
       getZoomParams U drawing_uri sized_note (drawing "x")
       = inr (getLocalImageZoomParams U name sized_note)
       /\ has_char "/" name = false
       /\ ((String.length "x" <= 3)%nat -> name = "").
Proof.
  do 4 (split; [reflexivity|]).
  apply (drawing_name_total U drawing_uri sized_note (drawing "x") "x"); reflexivity.
Defined.

End MoreWitnesses.
